(** * RadJanus: the MIMIC-CXR crawl / download / transcode script

    A shallow embedding of [scripts/download_MIMIC-CXR.py] and the
    properties its specification states about it.

    Layout of the development:
    - [Py]       the Python string and [os.path] primitives the script uses;
    - [F32]      numpy's float32 arithmetic (IEEE binary32, from [SpecFloat]);
    - the world (HTTP server, codecs, permissions) and the mutable state
      (file system and an event log), with a small exception/state monad;
    - the script's functions, one definition per Python function;
    - the theorems. *)

From Stdlib Require Import ZArith List String Ascii Strings.Byte Lia Bool.
From Stdlib Require Import Floats.SpecFloat.
From stdpp Require Import base gmap sets list strings.
From Equations Require Import Equations.

Local Open Scope string_scope.
Local Open Scope Z_scope.

#[local] Set Warnings "-clear-no-such-hyp".

(* ===================================================================== *)
(** ** Python strings and [os.path] (posixpath) *)
(* ===================================================================== *)

Module Py.

(** [s[n:]] for [0 <= n]. *)
Fixpoint drop (n : nat) (s : string) : string :=
  match n, s with
  | O, _ => s
  | S n', String _ s' => drop n' s'
  | S _, EmptyString => EmptyString
  end.

(** [s[:n]] for [0 <= n]. *)
Fixpoint take (n : nat) (s : string) : string :=
  match n, s with
  | O, _ => EmptyString
  | S n', String c s' => String c (take n' s')
  | S _, EmptyString => EmptyString
  end.

(** [s[:-n]]: all but the last [n] characters (empty when [len(s) <= n]). *)
Definition drop_last (n : nat) (s : string) : string :=
  take (String.length s - n) s.

(** [s.startswith(p)], returning the remainder after [p]. *)
Fixpoint strip_prefix (p s : string) : option string :=
  match p, s with
  | EmptyString, _ => Some s
  | String a p', String b s' =>
      if Ascii.eqb a b then strip_prefix p' s' else None
  | String _ _, EmptyString => None
  end.

Definition startswith (s p : string) : bool :=
  match strip_prefix p s with Some _ => true | None => false end.

(** [s.endswith(suf)]. *)
Definition endswith (s suf : string) : bool :=
  (String.length suf <=? String.length s)%nat
  && String.eqb (drop (String.length s - String.length suf) s) suf.

Definition lower_ascii (c : ascii) : ascii :=
  let n := N_of_ascii c in
  if ((65 <=? n) && (n <=? 90))%N then ascii_of_N (n + 32) else c.

(** [s.lower()] (on the ASCII range, which is what the suffix tests use). *)
Fixpoint lower (s : string) : string :=
  match s with
  | EmptyString => EmptyString
  | String c s' => String (lower_ascii c) (lower s')
  end.

(** [s.split(key, 1)] for a non-empty [key]: [None] stands for the
    one-element list [[s]] (no occurrence), [Some (a, b)] for [[a, b]],
    cut at the first occurrence of [key]. *)
Fixpoint split_once (key s : string) : option (string * string) :=
  match strip_prefix key s with
  | Some rest => Some (EmptyString, rest)
  | None =>
      match s with
      | EmptyString => None
      | String c s' =>
          match split_once key s' with
          | Some (a, b) => Some (String c a, b)
          | None => None
          end
      end
  end.

(** [s.lstrip("/")]. *)
Fixpoint lstrip_slash (s : string) : string :=
  match s with
  | String "/" s' => lstrip_slash s'
  | _ => s
  end.

(** [s.rstrip("/")]. *)
Fixpoint rstrip_slash (s : string) : string :=
  match s with
  | EmptyString => EmptyString
  | String c s' =>
      match rstrip_slash s' with
      | EmptyString => if Ascii.eqb c "/" then EmptyString else String c EmptyString
      | r => String c r
      end
  end.

(** [os.path.basename(p)]: what follows the last ["/"]. *)
Fixpoint basename (p : string) : string :=
  match p with
  | EmptyString => EmptyString
  | String c p' =>
      if Ascii.eqb c "/" then basename p'
      else if existsb (Ascii.eqb "/") (list_ascii_of_string p') then basename p'
      else p
  end.

(** [os.path.dirname(p)]: the head up to the last ["/"], with trailing
    slashes removed unless the head consists of slashes only. *)
Definition dirname (p : string) : string :=
  let head := take (String.length p - String.length (basename p)) p in
  match rstrip_slash head with
  | EmptyString => head
  | h => h
  end.

(** [os.path.join(a, b)]. *)
Definition join (a b : string) : string :=
  if startswith b "/" then b
  else if String.eqb a EmptyString || endswith a "/" then a ++ b
  else a ++ "/" ++ b.

End Py.

(* ===================================================================== *)
(** ** [relative_local_path] and the local path of a remote file *)
(* ===================================================================== *)

Definition split_key : string := "mimic-cxr/2.1.0/".

(** [relative_local_path(full_url)] *)
Definition relative_local_path (full_url : string) : string :=
  match Py.split_once split_key full_url with
  | None => Py.basename full_url
  | Some (_, tail) => Py.lstrip_slash tail
  end.

(** [os.path.join(save_dir, relative_local_path(full_url))], the
    [dcm_local_path] of [crawl_and_convert_dicom]. *)
Definition dcm_local_path (save_dir full_url : string) : string :=
  Py.join save_dir (relative_local_path full_url).

(** [dcm_local_path[:-4] + '.jpg'] *)
Definition jpg_local_path (dcm_path : string) : string :=
  Py.drop_last 4 dcm_path ++ ".jpg".


(* ===================================================================== *)
(** ** numpy float32 arithmetic *)
(* ===================================================================== *)

(** IEEE 754 binary32 with round-to-nearest-even, as numpy's [float32]
    computes: the operations of the standard library's [SpecFloat] at
    precision 24 and maximal exponent 128. *)
Module F32.

Definition prec : Z := 24.
Definition emax : Z := 128.

Definition float32 : Type := spec_float.

(** the float32 nearest to an integer ([astype(np.float32)] on an integer
    array, and the literals [0] and [255.0]). *)
Definition of_int (z : Z) : float32 := binary_normalize prec emax z 0 false.

Definition sub : float32 -> float32 -> float32 := SFsub prec emax.
Definition mul : float32 -> float32 -> float32 := SFmul prec emax.
Definition div : float32 -> float32 -> float32 := SFdiv prec emax.
Definition ltb : float32 -> float32 -> bool := SFltb.

Definition zero : float32 := S754_zero false.
Definition c255 : float32 := of_int 255.

(** [1e-6] as a float32: 8796093 * 2^-43. *)
Definition eps : float32 := S754_finite false 8796093 (-43).

Definition is_nan (x : float32) : bool :=
  match x with S754_nan => true | _ => false end.

Definition is_zero (x : float32) : bool :=
  match x with S754_zero _ => true | _ => false end.


(** [np.minimum] and [np.maximum] on scalars: a NaN operand wins. *)
Definition fmin (a b : float32) : float32 :=
  if is_nan a then a else if is_nan b then b else if ltb b a then b else a.

Definition fmax (a b : float32) : float32 :=
  if is_nan a then a else if is_nan b then b else if ltb a b then b else a.

(** Truncation toward zero of a finite value. *)
Definition trunc (x : float32) : Z :=
  match x with
  | S754_finite s m e => let a := Z.shiftl (Z.pos m) e in if s then - a else a
  | _ => 0
  end.

(** [astype(np.uint8)] on one sample: the C conversion truncates toward
    zero; the stored byte is the truncated value modulo 256.  (Outside
    the range of the integer type, and on NaN and infinities, C leaves
    the conversion undefined; the byte is 0 here for NaN and infinities.) *)
Definition to_uint8 (x : float32) : Z := trunc x mod 256.

End F32.

(* ===================================================================== *)
(** ** The world outside the script, and the state it mutates *)
(* ===================================================================== *)

Definition bytes : Type := list byte.

(** The exceptions the script can meet.  All of them are subclasses of
    Python's [Exception], so every [except Exception] catches them. *)
Inductive exn : Type :=
| HTTPError          (* requests: raise_for_status on a 4xx/5xx response *)
| ConnectionError    (* requests: no response, timeout, broken body stream *)
| OSError            (* FileNotFoundError, PermissionError, IsADirectoryError, ... *)
| InvalidDicomError  (* pydicom could not read the file or its pixel data *)
| ValueError         (* numpy: min/max of an empty array *)
| CvError            (* cv2.error raised by imencode *)
| NameError          (* a local read before assignment *)
| BadArchive.        (* zipfile.BadZipFile, gzip.BadGzipFile, EOFError *)

Inductive result (A : Type) : Type :=
| Ok (a : A)
| Raise (e : exn).
Arguments Ok {A} a.
Arguments Raise {A} e.

(** An HTTP response: its status, the chunks [iter_content] yields, and
    whether the body stream ends normally after them. *)
Record response : Type := mkResponse {
  status_code : Z;
  chunks : list bytes;
  stream_ok : bool
}.

(** An [<a>] element as the script reads it: [link.get('href')] and the
    element's CSS classes. *)
Record anchor : Type := mkAnchor {
  a_href : option string;
  a_class : list string
}.

(** [cv2.imencode] returns [(ok, encimg)], or raises. *)
Inductive enc_result : Type :=
| EncOk (encimg : bytes)
| EncNotOk
| EncRaise.

(** A member of a zip archive: its sanitized archive name (relative, as
    [ZipFile.extractall] resolves it, without a trailing slash), whether
    it is a directory entry, its data, and whether the data passes the
    archive's integrity check. *)
Record zip_member : Type := mkMember {
  zm_name : string;
  zm_is_dir : bool;
  zm_data : bytes;
  zm_intact : bool
}.

Inductive fsop : Type := OpMkdir | OpWrite | OpRemove.

(** Everything the script does not define itself: the server, the
    libraries it treats as codecs, the permissions of the file system and
    the order in which a thread pool completes its futures. *)
Record World : Type := mkWorld {
  http : string -> option response;
  soup_anchors : bytes -> list anchor;        (* BeautifulSoup(text).find_all('a') *)
  urljoin : string -> string -> string;
  urlparse_path : string -> string;           (* urlparse(url).path *)
  dcmread : bytes -> option (list Z);         (* pydicom.dcmread(..).pixel_array, flattened *)
  imencode : list Z -> Z -> enc_result;       (* cv2.imencode('.jpg', arr, [JPEG_QUALITY, q]) *)
  zip_open : bytes -> option (list zip_member);
  gunzip : bytes -> bytes * bool;             (* decompressed output, and whether the stream was intact *)
  denied : fsop -> string -> bool;            (* the OS refuses this operation on this path *)
  as_completed : forall A : Type, list A -> list A
}.

Inductive message : Type :=
| MsgLoginOk
| MsgLoginFailed
| MsgDownloaded (path : string) (size : Z)
| MsgDownloadFailed (e : exn)
| MsgExtracting (path : string)
| MsgRemovedArchive (path : string)
| MsgErrorExtracting (path : string) (e : exn)
| MsgCouldNotReadDicom (path : string)
| MsgEncodeFailed (path : string)
| MsgConverted (dcm jpg : string) (size : Z)
| MsgFailedToDownload (url : string) (e : exn)
| MsgFailedToConvert (path : string) (e : exn)
| MsgProcessed (dcm_count : Z)
| MsgErrorOnDicom (e : exn)
| MsgAllDone.

(** What the script does to the outside, in the order it does it. *)
Inductive event : Type :=
| EvGet (url : string) (stream : bool)   (* session.get *)
| EvMakedirs (d : string)                (* os.makedirs(d, exist_ok=True) *)
| EvOpen (path : string)                 (* open(path, 'wb') *)
| EvWrite (path : string) (data : bytes) (* f.write(data) *)
| EvRemove (path : string)               (* os.remove(path) *)
| EvPrint (m : message).

(** The file system (regular files and directories, by path) and the
    log of events so far, oldest first. *)
Record state : Type := mkState {
  files : gmap string bytes;
  dirs : gset string;
  log : list event
}.

Definition emit (e : event) (st : state) : state :=
  mkState (files st) (dirs st) (log st ++ [e])%list.

(** *** The monad: state passing with exceptions *)

Definition M (A : Type) : Type := state -> result A * state.

Definition ret {A} (a : A) : M A := fun st => (Ok a, st).

Definition raise {A} (e : exn) : M A := fun st => (Raise e, st).

Definition bind {A B} (m : M A) (k : A -> M B) : M B :=
  fun st =>
    match m st with
    | (Ok a, st') => k a st'
    | (Raise e, st') => (Raise e, st')
    end.

(** [try: m  except Exception as e: h e] *)
Definition try_except {A} (m : M A) (h : exn -> M A) : M A :=
  fun st =>
    match m st with
    | (Ok a, st') => (Ok a, st')
    | (Raise e, st') => h e st'
    end.

Definition print (m : message) : M unit :=
  fun st => (Ok tt, emit (EvPrint m) st).

Declare Scope monad_scope.
Delimit Scope monad_scope with monad.
Notation "x <- m ;; k" := (bind m (fun x => k))
  (at level 100, m at next level, right associativity) : monad_scope.
Notation "m ;; k" := (bind m (fun _ => k))
  (at level 100, right associativity) : monad_scope.
Local Open Scope monad_scope.

(** *** File-system primitives *)

(** The proper ancestors of a path: every non-empty prefix that is
    followed by a slash. *)
Fixpoint ancestors_from (pre rest : string) : list string :=
  match rest with
  | EmptyString => []
  | String c rest' =>
      let tl := ancestors_from (pre ++ String c EmptyString) rest' in
      if Ascii.eqb c "/" then
        match pre with EmptyString => tl | _ => pre :: tl end
      else tl
  end.

Definition ancestors (d : string) : list string := ancestors_from EmptyString d.

Definition isfile (p : string) (st : state) : bool :=
  match files st !! p with Some _ => true | None => false end.

(** [os.makedirs(d, exist_ok=True)]: fails on the empty path, where the
    OS refuses, and where [d] or one of its ancestors is a regular file;
    otherwise [d] and its ancestors are directories afterwards. *)
Definition makedirs (w : World) (d : string) : M unit :=
  fun st =>
    let st1 := emit (EvMakedirs d) st in
    let chain := (ancestors d ++ [d])%list in
    if String.eqb d EmptyString then (Raise OSError, st1)
    else if denied w OpMkdir d then (Raise OSError, st1)
    else if existsb (fun p => isfile p st) chain then (Raise OSError, st1)
    else (Ok tt, mkState (files st1) (list_to_set chain ∪ dirs st1) (log st1)).

(** [open(path, 'wb')]: creates the file or truncates it. *)
Definition open_wb (w : World) (path : string) : M unit :=
  fun st =>
    let st1 := emit (EvOpen path) st in
    if String.eqb path EmptyString then (Raise OSError, st1)
    else if denied w OpWrite path then (Raise OSError, st1)
    else if bool_decide (path ∈ dirs st) then (Raise OSError, st1)
    else (Ok tt, mkState (<[path := []]> (files st1)) (dirs st1) (log st1)).

(** [f.write(data)] on a file opened by [open_wb]. *)
Definition write (path : string) (data : bytes) : M unit :=
  fun st =>
    let st1 := emit (EvWrite path data) st in
    let old := default [] (files st !! path) in
    (Ok tt, mkState (<[path := (old ++ data)%list]> (files st1)) (dirs st1) (log st1)).

(** [os.remove(path)] *)
Definition remove (w : World) (path : string) : M unit :=
  fun st =>
    let st1 := emit (EvRemove path) st in
    if negb (isfile path st) then (Raise OSError, st1)
    else if denied w OpRemove path then (Raise OSError, st1)
    else (Ok tt, mkState (delete path (files st1)) (dirs st1) (log st1)).

(** reading a whole file *)
Definition read_file (path : string) : M bytes :=
  fun st =>
    match files st !! path with
    | Some b => (Ok b, st)
    | None => (Raise OSError, st)
    end.

(** *** HTTP primitives *)

(** [session.get(url, stream=...)]: without [stream] the body is read
    before [get] returns, so a broken body makes [get] itself raise. *)
Definition session_get (w : World) (url : string) (stream : bool) : M response :=
  fun st =>
    let st1 := emit (EvGet url stream) st in
    match http w url with
    | None => (Raise ConnectionError, st1)
    | Some r =>
        if negb stream && negb (stream_ok r) then (Raise ConnectionError, st1)
        else (Ok r, st1)
    end.

Definition is_error_status (code : Z) : bool := (400 <=? code) && (code <? 600).

(** [r.raise_for_status()] *)
Definition raise_for_status (r : response) : M unit :=
  if is_error_status (status_code r) then raise HTTPError else ret tt.

(* ===================================================================== *)
(** ** The script's functions *)
(* ===================================================================== *)

(** [get_soup(url, s)], returning the page's anchors in document order. *)
Definition get_soup (w : World) (url : string) : M (list anchor) :=
  r <- session_get w url false ;;
  raise_for_status r ;;
  ret (soup_anchors w (concat (chunks r))).

(** the [for chunk in r.iter_content(...)] loop of [download_file] *)
Fixpoint write_chunks (path : string) (cs : list bytes) (size : Z) : M Z :=
  match cs with
  | [] => ret size
  | chunk :: cs' =>
      match chunk with
      | [] => write_chunks path cs' size
      | _ :: _ =>
          write path chunk ;;
          write_chunks path cs' (size + Z.of_nat (length chunk))
      end
  end.

(** [download_file(file_url, local_path, session)] *)
Definition download_file (w : World) (file_url local_path : string) : M (string * Z) :=
  makedirs w (Py.dirname local_path) ;;
  r <- session_get w file_url true ;;
  raise_for_status r ;;
  open_wb w local_path ;;
  size <- write_chunks local_path (chunks r) 0 ;;
  if stream_ok r then ret (local_path, size) else raise ConnectionError.

(** *** [dicom_to_jpg] *)

(** The rescaled 8-bit buffer, and whether a division by zero happened
    while computing it (numpy's divide-by-zero / invalid-value warning). *)
Record normalized : Type := mkNormalized {
  pixels : list Z;
  zero_division : bool
}.

(** Lines 148-154: [astype(float32)], min and max, rescaling to
    [0..255], [astype(uint8)].  [arr.min()] raises on an empty array. *)
Definition normalize (samples : list Z) : result normalized :=
  match map F32.of_int samples with
  | [] => Raise ValueError
  | x :: xs =>
      let arr := x :: xs in
      let min_val := fold_left F32.fmin xs x in
      let max_val := fold_left F32.fmax xs x in
      if F32.ltb (F32.sub max_val min_val) F32.eps then
        Ok (mkNormalized (map (fun _ => F32.to_uint8 F32.zero) arr) false)
      else
        Ok (mkNormalized
              (map (fun v => F32.to_uint8
                               (F32.mul (F32.div (F32.sub v min_val)
                                                 (F32.sub max_val min_val))
                                        F32.c255)) arr)
              (F32.is_zero (F32.sub max_val min_val)))
  end.

(** How the quality search of lines 156-169 ends. *)
Inductive selection : Type :=
| Accepted (encoded : bytes)   (* [encoded] is bound: go on and save it *)
| NotOk                        (* [imencode] returned [ok = False]: print and return *)
| EncodeRaised (e : exn).      (* an exception leaves the function *)

(** The [while quality >= 10] loop, with [encimg] the last encoding made
    ([None] before the first one). *)
Equations quality_loop (w : World) (arr : list Z) (target_size : Z)
  (quality : Z) (encimg : option bytes) : selection by wf (Z.to_nat quality) lt :=
quality_loop w arr target_size quality encimg with Z_lt_dec quality 10 := {
  | left _ =>
      match encimg with
      | Some b => Accepted b
      | None => EncodeRaised NameError
      end
  | right _ =>
      match imencode w arr quality with
      | EncRaise => EncodeRaised CvError
      | EncNotOk => NotOk
      | EncOk b =>
          if Z.of_nat (length b) <=? target_size then Accepted b
          else quality_loop w arr target_size (quality - 10) (Some b)
      end }.
Next Obligation. lia. Qed.

Definition select_encoding (w : World) (arr : list Z) (target_size : Z) : selection :=
  quality_loop w arr target_size 90 None.

(** [dicom_to_jpg(dcm_path, jpg_path, target_size)] *)
Definition dicom_to_jpg (w : World) (dcm_path jpg_path : string) (target_size : Z) : M unit :=
  decoded <- try_except
               (content <- read_file dcm_path ;;
                match dcmread w content with
                | Some samples => ret (Some samples)
                | None => raise InvalidDicomError
                end)
               (fun _ => print (MsgCouldNotReadDicom dcm_path) ;; ret None) ;;
  match decoded with
  | None => ret tt
  | Some samples =>
      match normalize samples with
      | Raise e => raise e
      | Ok n =>
          match select_encoding w (pixels n) target_size with
          | EncodeRaised e => raise e
          | NotOk => print (MsgEncodeFailed dcm_path)
          | Accepted encoded =>
              makedirs w (Py.dirname jpg_path) ;;
              open_wb w jpg_path ;;
              write jpg_path encoded ;;
              try_except (remove w dcm_path) (fun _ => ret tt) ;;
              print (MsgConverted dcm_path jpg_path (Z.of_nat (length encoded)))
          end
      end
  end.

(** [download_and_convert(file_url, dcm_path, jpg_path, session)] *)
Definition download_and_convert (w : World) (file_url dcm_path jpg_path : string) : M bool :=
  downloaded <- try_except
                  (r <- download_file w file_url dcm_path ;;
                   print (MsgDownloaded dcm_path (snd r)) ;;
                   ret true)
                  (fun e => print (MsgFailedToDownload file_url e) ;; ret false) ;;
  if downloaded then
    try_except
      (dicom_to_jpg w dcm_path jpg_path 1000000 ;; ret true)
      (fun ex => print (MsgFailedToConvert dcm_path ex) ;; ret false)
  else ret false.

(** *** [extract_if_archive] *)

(** [zf.extractall(folder)]: the members are written one after the other
    under [folder].  The archive is read member by member while this
    goes on: once a member has been written over the archive's own path
    ([clobbered]), nothing more can be read from it. *)
Fixpoint extract_members (w : World) (folder filepath : string)
  (members : list zip_member) (clobbered : bool) : M unit :=
  match members with
  | [] => ret tt
  | m :: members' =>
      if clobbered then raise BadArchive
      else
        let target := Py.join folder (zm_name m) in
        let upperdirs := Py.dirname target in
        (if String.eqb upperdirs EmptyString then ret tt else makedirs w upperdirs) ;;
        if zm_is_dir m then
          makedirs w target ;;
          extract_members w folder filepath members' false
        else
          open_wb w target ;;
          if String.eqb target filepath then
            match zm_data m with
            | [] => extract_members w folder filepath members' true
            | _ :: _ => raise BadArchive
            end
          else
            write target (zm_data m) ;;
            if zm_intact m then extract_members w folder filepath members' false
            else raise BadArchive
  end.

(** the [try] block of the [.zip] branch *)
Definition extract_zip (w : World) (filepath : string) : M unit :=
  let folder := Py.dirname filepath in
  content <- read_file filepath ;;
  match zip_open w content with
  | None => raise BadArchive
  | Some members =>
      extract_members w folder filepath members false ;;
      remove w filepath ;;
      print (MsgRemovedArchive filepath)
  end.

(** the [try] block of the [.gz] branch *)
Definition extract_gz (w : World) (filepath : string) : M unit :=
  let outpath := Py.drop_last 3 filepath in
  content <- read_file filepath ;;
  open_wb w outpath ;;
  write outpath (fst (gunzip w content)) ;;
  if snd (gunzip w content) then
    remove w filepath ;;
    print (MsgRemovedArchive filepath)
  else raise BadArchive.

(** [extract_if_archive(filepath)] *)
Definition extract_if_archive (w : World) (filepath : string) : M unit :=
  fun st =>
    if negb (isfile filepath st) then (Ok tt, st)
    else if Py.endswith (Py.lower filepath) ".zip" then
      (print (MsgExtracting (Py.dirname filepath)) ;;
       try_except (extract_zip w filepath)
                  (fun e => print (MsgErrorExtracting filepath e))) st
    else if Py.endswith (Py.lower filepath) ".gz" then
      (print (MsgExtracting (Py.drop_last 3 filepath)) ;;
       try_except (extract_gz w filepath)
                  (fun e => print (MsgErrorExtracting filepath e))) st
    else (Ok tt, st).

(** *** Thread pools *)

(** A future: the submitted call runs to its end and keeps its result
    or its exception for [fut.result()]. *)
Definition run_future {A} (m : M A) : M (result A) :=
  fun st => let '(r, st') := m st in (Ok r, st').

(** [executor.submit] for each call, in submission order.  The pool's
    workers are taken to run the calls one after the other. *)
Fixpoint submit_all {A} (calls : list (M A)) : M (list (result A)) :=
  match calls with
  | [] => ret []
  | m :: calls' =>
      r <- run_future m ;;
      rs <- submit_all calls' ;;
      ret (r :: rs)
  end.

(** *** [download_top_level_files] *)

Definition exts : list string := [".zip"; ".txt"; ".gz"].

(** the submission loop: one [(file_url, local_path)] per eligible anchor *)
Fixpoint top_level_tasks (w : World) (top_level_url save_dir : string)
  (download_anchors : list anchor) : list (string * string) :=
  match download_anchors with
  | [] => []
  | a :: rest =>
      let href := default EmptyString (a_href a) in
      if String.eqb href EmptyString then top_level_tasks w top_level_url save_dir rest
      else
        let file_url := urljoin w top_level_url href in
        let basename := Py.basename (urlparse_path w file_url) in
        if negb (existsb (Py.endswith (Py.lower basename)) exts)
        then top_level_tasks w top_level_url save_dir rest
        else (file_url, Py.join save_dir basename)
               :: top_level_tasks w top_level_url save_dir rest
  end.

(** the [for fut in as_completed(tasks)] loop *)
Fixpoint handle_downloads (w : World) (futs : list (result (string * Z))) : M unit :=
  match futs with
  | [] => ret tt
  | fut :: futs' =>
      match fut with
      | Ok (dl_path, dl_size) =>
          print (MsgDownloaded dl_path dl_size) ;;
          extract_if_archive w dl_path
      | Raise e => print (MsgDownloadFailed e)
      end ;;
      handle_downloads w futs'
  end.

(** [download_top_level_files(session, top_level_url, save_dir)] *)
Definition download_top_level_files (w : World) (top_level_url save_dir : string) : M unit :=
  soup <- get_soup w top_level_url ;;
  let download_anchors :=
    List.filter (fun a => bool_decide ("download" ∈ a_class a)) soup in
  let tasks := top_level_tasks w top_level_url save_dir download_anchors in
  futs <- submit_all (map (fun t => download_file w (fst t) (snd t)) tasks) ;;
  handle_downloads w (as_completed w _ futs).

(** *** [crawl_and_convert_dicom] *)

(** One scheduled unit: [(full_url, dcm_local_path, jpg_local_path)]. *)
Record task : Type := mkTask {
  t_url : string;
  t_dcm : string;
  t_jpg : string
}.

(** The [for link in soup.find_all('a')] loop (lines 260-276).
    [links_to_visit] is the stack with its top first: the head of the
    list is the last element of the Python list, [append] is a cons and
    [pop()] takes the head.  The tasks are returned in submission order. *)
Fixpoint scan_links (w : World) (current_url save_dir : string)
  (links : list anchor) (links_to_visit : list string) : list string * list task :=
  match links with
  | [] => (links_to_visit, [])
  | link :: links' =>
      let href := default EmptyString (a_href link) in
      if String.eqb href EmptyString || String.eqb href "../"
      then scan_links w current_url save_dir links' links_to_visit
      else
        let full_url := urljoin w current_url href in
        if Py.endswith href "/" then
          scan_links w current_url save_dir links' (full_url :: links_to_visit)
        else if Py.endswith (Py.lower href) ".dcm" then
          let dcm := dcm_local_path save_dir full_url in
          let '(stack, tasks) := scan_links w current_url save_dir links' links_to_visit in
          (stack, mkTask full_url dcm (jpg_local_path dcm) :: tasks)
        else scan_links w current_url save_dir links' links_to_visit
  end.

(** The [for fut in as_completed(tasks)] loop (lines 278-289), returning
    the counter it leaves. *)
Fixpoint collect (max_files : Z) (futs : list (result bool)) (dcm_count : Z) : M Z :=
  match futs with
  | [] => ret dcm_count
  | fut :: futs' =>
      if dcm_count >=? max_files then ret dcm_count
      else
        match fut with
        | Ok success =>
            c <- (if success
                  then print (MsgProcessed (dcm_count + 1)) ;; ret (dcm_count + 1)
                  else ret dcm_count) ;;
            if c >=? max_files then ret c
            else collect max_files futs' c
        | Raise e =>
            print (MsgErrorOnDicom e) ;;
            collect max_files futs' dcm_count
        end
  end.

(** The local variables of [crawl_and_convert_dicom]. *)
Record crawl_state : Type := mkCrawl {
  dcm_count : Z;
  links_to_visit : list string;
  visited : gset string
}.

(** Lines 257-289: what one iteration does with a directory that was
    not visited before; returns the new counter and the new stack. *)
Definition visit_directory (w : World) (save_dir : string) (max_files : Z)
  (current_url : string) (count : Z) (stack : list string) : M (Z * list string) :=
  soup <- get_soup w current_url ;;
  let '(stack', tasks) := scan_links w current_url save_dir soup stack in
  futs <- submit_all (map (fun t => download_and_convert w (t_url t) (t_dcm t) (t_jpg t)) tasks) ;;
  c <- collect max_files (as_completed w _ futs) count ;;
  ret (c, stack').

(** How a run of the crawl loop ends. *)
Inductive outcome : Type :=
| Completed              (* the function returns *)
| Aborted (e : exn)      (* an exception leaves the function *)
| OutOfFuel.             (* the loop was cut after [fuel] iterations *)

(** The [while links_to_visit and dcm_count < max_files] loop. *)
Fixpoint crawl_loop (w : World) (save_dir : string) (max_files : Z)
  (fuel : nat) (cs : crawl_state) (st : state) : outcome * crawl_state * state :=
  match links_to_visit cs with
  | [] => (Completed, cs, st)
  | current_url :: rest =>
      if negb (dcm_count cs <? max_files) then (Completed, cs, st)
      else
        match fuel with
        | O => (OutOfFuel, cs, st)
        | S fuel' =>
            if bool_decide (current_url ∈ visited cs) then
              crawl_loop w save_dir max_files fuel'
                (mkCrawl (dcm_count cs) rest (visited cs)) st
            else
              let visited' := {[current_url]} ∪ visited cs in
              match visit_directory w save_dir max_files current_url (dcm_count cs) rest st with
              | (Raise e, st') => (Aborted e, mkCrawl (dcm_count cs) rest visited', st')
              | (Ok (c, stack'), st') =>
                  if c >=? max_files then (Completed, mkCrawl c stack' visited', st')
                  else crawl_loop w save_dir max_files fuel' (mkCrawl c stack' visited') st'
              end
        end
  end.

(** [crawl_and_convert_dicom(session, start_url, save_dir, max_files)] *)
Definition crawl_and_convert_dicom (w : World) (start_url save_dir : string)
  (max_files : Z) (fuel : nat) (st : state) : outcome * crawl_state * state :=
  crawl_loop w save_dir max_files fuel (mkCrawl 0 [start_url] ∅) st.

(** *** The script's top level *)

Definition TOP_LEVEL_URL : string := "https://physionet.org/content/mimic-cxr/2.1.0/".
Definition BASE_DICOM_URL : string := "https://physionet.org/files/mimic-cxr/2.1.0/files/".

(** How the process ends. *)
Inductive exit : Type :=
| Finished                 (* the last statement ran *)
| Exit (code : Z)          (* [exit(code)] *)
| Uncaught (e : exn)       (* traceback *)
| Running.                 (* cut after [fuel] iterations of the crawl *)

(** Sections 2 and 6 of the script, for the settings [SAVE_DIR] and
    [MAX_FILES] chosen in section 1. *)
Definition main (w : World) (SAVE_DIR : string) (MAX_FILES : Z) (fuel : nat)
  (st : state) : exit * state :=
  match session_get w BASE_DICOM_URL false st with
  | (Raise e, st1) => (Uncaught e, st1)
  | (Ok test_resp, st1) =>
      if status_code test_resp =? 200 then
        match (print MsgLoginOk ;;
               download_top_level_files w TOP_LEVEL_URL SAVE_DIR) st1 with
        | (Raise e, st2) => (Uncaught e, st2)
        | (Ok _, st2) =>
            match crawl_and_convert_dicom w BASE_DICOM_URL SAVE_DIR MAX_FILES fuel st2 with
            | (Completed, _, st3) => (Finished, emit (EvPrint MsgAllDone) st3)
            | (Aborted e, _, st3) => (Uncaught e, st3)
            | (OutOfFuel, _, st3) => (Running, st3)
            end
        end
      else (Exit 1, emit (EvPrint MsgLoginFailed) st1)
  end.

(* ===================================================================== *)
(** ** Concrete worlds, used to run the script on examples *)
(* ===================================================================== *)

Module Demo.

Definition root : string := BASE_DICOM_URL.

Definition page (hrefs : list string) : list anchor :=
  map (fun h => mkAnchor (Some h) []) hrefs.

(** A listing page is served as a one-byte body naming the page. *)
Definition listing (id : byte) : response := mkResponse 200 [[id]] true.

Definition anchors_of (body : bytes) : list anchor :=
  match body with
  | [x01] => page ["../"; "p10/"; "p11/"]
  | [x02] => page ["../"; "a.dcm"; "b.dcm"]
  | [x03] => page ["../"; "c.dcm"; "notes.txt"]
  | [x04] => page ["../"; "p10/"; "p10/"; "/files/mimic-cxr/2.1.0/files/"]
  | _ => []
  end.

Definition lookup_url {A} (table : list (string * A)) (url : string) : option A :=
  snd <$> List.find (fun e => String.eqb (fst e) url) table.

(** [a.dcm] is a DICOM image, [b.dcm] is served but is no DICOM file,
    [c.dcm] is missing on the server. *)
Definition server : list (string * response) :=
  [ (root, listing x01);
    (root ++ "p10/", listing x02);
    (root ++ "p11/", listing x03);
    (root ++ "p10/a.dcm", mkResponse 200 [[x0a; x0a]; []; [x0a]] true);
    (root ++ "p10/b.dcm", mkResponse 200 [[x0b]] true);
    (root ++ "p11/c.dcm", mkResponse 404 [[x00]] true) ]%string.

Definition decode (content : bytes) : option (list Z) :=
  match content with
  | [x0a; x0a; x0a] => Some [0; 1000; 4095]
  | _ => None
  end.

(** An encoder whose output has 100 * quality bytes. *)
Definition encode (arr : list Z) (quality : Z) : enc_result :=
  EncOk (repeat x00 (Z.to_nat (100 * quality))).

Definition join_url (base href : string) : string :=
  if Py.startswith href "/" then ("https://physionet.org" ++ href)%string
  else (base ++ href)%string.

Definition world : World :=
  mkWorld (lookup_url server) anchors_of join_url (fun u => u)
          decode encode (fun _ => None) (fun b => (b, true))
          (fun _ _ => false) (fun _ l => rev l).

Definition empty_state : state := mkState ∅ ∅ [].

(** The same site with the listing of [p11/] answering 500. *)
Definition server_broken : list (string * response) :=
  [ (root, listing x01);
    (root ++ "p10/", listing x02);
    (root ++ "p11/", mkResponse 500 [] true);
    (root ++ "p10/a.dcm", mkResponse 200 [[x0a; x0a]; []; [x0a]] true);
    (root ++ "p10/b.dcm", mkResponse 200 [[x0b]] true) ]%string.

Definition world_broken_listing : World :=
  mkWorld (lookup_url server_broken) anchors_of join_url (fun u => u)
          decode (fun _ q => EncOk (repeat x00 (Z.to_nat (100 * q))))
          (fun _ => None) (fun b => (b, true))
          (fun _ _ => false) (fun _ l => rev l).

(** A world whose login check is refused. *)
Definition world_logged_out : World :=
  mkWorld (fun _ => Some (mkResponse 403 [] true)) anchors_of join_url (fun u => u)
          decode (fun _ q => EncOk (repeat x00 (Z.to_nat (100 * q))))
          (fun _ => None) (fun b => (b, true))
          (fun _ _ => false) (fun _ l => rev l).

(** An archive whose only member is an empty file named like the
    archive itself, and one with two ordinary members. *)
Definition unzip (content : bytes) : option (list zip_member) :=
  match content with
  | [x50; x4b; x01] => Some [mkMember "a.zip" false [] true]
  | [x50; x4b; x02] => Some [mkMember "sub" true [] true;
                             mkMember "sub/x.csv" false [x31] true;
                             mkMember "y.csv" false [x32] false]
  | [x50; x4b; x03] => Some [mkMember "sub" true [] true;
                             mkMember "sub/x.csv" false [x31] true]
  | _ => None
  end.

Definition gunzip_demo (content : bytes) : bytes * bool :=
  match content with
  | [x1f; x8b; x01] => ([x61; x62], true)
  | [x1f; x8b; x02] => ([x61], false)
  | _ => ([], false)
  end.

Definition world_archives : World :=
  mkWorld (lookup_url server) anchors_of join_url (fun u => u)
          decode (fun _ q => EncOk (repeat x00 (Z.to_nat (100 * q))))
          unzip gunzip_demo
          (fun _ _ => false) (fun _ l => rev l).

(** A file system holding one file. *)
Definition one_file (path : string) (content : bytes) : state :=
  mkState {[ path := content ]} ∅ [].

(** The encoding [encode] makes at a level. *)
Definition enc (quality : Z) : bytes := repeat x00 (Z.to_nat (100 * quality)).

(** A world like [world] where the OS refuses to remove anything. *)
Definition world_no_remove : World :=
  mkWorld (lookup_url server) anchors_of join_url (fun u => u)
          decode encode (fun _ => None) (fun b => (b, true))
          (fun op _ => match op with OpRemove => true | _ => false end)
          (fun _ l => rev l).

(** A world like [world] whose encoder gives up below level 50. *)
Definition world_weak_encoder : World :=
  mkWorld (lookup_url server) anchors_of join_url (fun u => u)
          decode (fun arr q => if q <? 50 then EncNotOk else encode arr q)
          (fun _ => None) (fun b => (b, true))
          (fun _ _ => false) (fun _ l => rev l).

End Demo.

(* ===================================================================== *)
(** ** The quality search, as the specification words it *)
(* ===================================================================== *)

(** The quality levels of the search, in the order they are tried. *)
Definition qualities : list Z := [90; 80; 70; 60; 50; 40; 30; 20; 10].

(** Go through the levels in order; accept the first encoding that fits
    the ceiling; when the levels are used up accept the last encoding
    made.  A failing encoder ends the search at once. *)
Fixpoint search_levels (w : World) (arr : list Z) (ceiling : Z)
  (levels : list Z) (last : option bytes) : selection :=
  match levels with
  | [] =>
      match last with
      | Some b => Accepted b
      | None => EncodeRaised NameError
      end
  | q :: levels' =>
      match imencode w arr q with
      | EncRaise => EncodeRaised CvError
      | EncNotOk => NotOk
      | EncOk b =>
          if Z.of_nat (length b) <=? ceiling then Accepted b
          else search_levels w arr ceiling levels' (Some b)
      end
  end.

(** Level [q] yields the encoding [enc q], and it is over the ceiling. *)
Definition too_large (w : World) (arr : list Z) (target : Z) (enc : Z -> bytes)
  (q : Z) : Prop :=
  imencode w arr q = EncOk (enc q) /\ target < Z.of_nat (length (enc q)).

(** The source file cannot be read, or is no DICOM image. *)
Definition undecodable (w : World) (dcm_path : string) (st : state) : Prop :=
  files st !! dcm_path = None
  \/ exists content, files st !! dcm_path = Some content /\ dcmread w content = None.




(** [get_soup] on this URL raises: no response, a broken body, or an
    error status. *)
Definition fetch_fails (w : World) (url : string) : Prop :=
  http w url = None
  \/ exists r, http w url = Some r
               /\ (stream_ok r = false \/ is_error_status (status_code r) = true).

(* ===================================================================== *)
(** ** Reading the event log *)
(* ===================================================================== *)

(** The directory listings requested, in order: the [get_soup] calls. *)
Definition listing_fetches (evs : list event) : list string :=
  flat_map (fun e => match e with EvGet url false => [url] | _ => [] end) evs.

(** The values of [dcm_count] printed after each increment, in order. *)
Definition counter_values (evs : list event) : list Z :=
  flat_map (fun e => match e with EvPrint (MsgProcessed n) => [n] | _ => [] end) evs.

(** What a download-and-convert worker can do: anything but request a
    listing or print the counter. *)
Definition worker_event (e : event) : Prop :=
  match e with
  | EvGet _ false => False
  | EvPrint (MsgProcessed _) => False
  | _ => True
  end.

(** Every event [m] adds to the log satisfies [P]. *)
Definition emits_only (P : event -> Prop) {A} (m : M A) : Prop :=
  forall st r st', m st = (r, st') ->
    exists added, log st' = (log st ++ added)%list /\ Forall P added.

(* ===================================================================== *)
(** ** The site as the crawler sees it *)
(* ===================================================================== *)

(** [link.get('href', '')] *)
Definition href_of (link : anchor) : string := default EmptyString (a_href link).

(** The hrefs the link loop pushes as subdirectories, and those it
    schedules as DICOM files. *)
Definition wanted_dir (href : string) : bool :=
  negb (String.eqb href EmptyString || String.eqb href "../")
  && Py.endswith href "/".

Definition wanted_dcm (href : string) : bool :=
  negb (String.eqb href EmptyString || String.eqb href "../")
  && negb (Py.endswith href "/")
  && Py.endswith (Py.lower href) ".dcm".

Definition dir_links (w : World) (current_url : string) (links : list anchor) : list string :=
  map (urljoin w current_url) (List.filter wanted_dir (map href_of links)).

Definition task_of (save_dir full_url : string) : task :=
  mkTask full_url (dcm_local_path save_dir full_url)
         (jpg_local_path (dcm_local_path save_dir full_url)).

Definition dcm_tasks (w : World) (current_url save_dir : string) (links : list anchor) : list task :=
  map (fun href => task_of save_dir (urljoin w current_url href))
      (List.filter wanted_dcm (map href_of links)).

(** The anchors [get_soup] returns for a URL, when it returns. *)
Definition listing (w : World) (url : string) : option (list anchor) :=
  match http w url with
  | Some r =>
      if stream_ok r && negb (is_error_status (status_code r))
      then Some (soup_anchors w (concat (chunks r)))
      else None
  | None => None
  end.

(** The futures that hold [True]. *)
Definition successes (futs : list (result bool)) : nat :=
  length (List.filter (fun fut => match fut with Ok true => true | _ => false end) futs).

(** [as_completed] yields every future exactly once, in some order. *)
Definition fair_pool (w : World) : Prop :=
  forall (A : Type) (l : list A), Permutation (as_completed w A l) l.

(** The directories the crawl can reach from [start_url]: the start, and
    the subdirectory links of a reachable directory whose listing can be
    fetched. *)
Inductive reachable (w : World) (start_url : string) : string -> Prop :=
| reach_start : reachable w start_url start_url
| reach_link d soup u :
    reachable w start_url d ->
    listing w d = Some soup ->
    In u (dir_links w d soup) ->
    reachable w start_url u.

(** The units of the crawl tree: those scheduled from the listing of a
    reachable directory. *)
Definition in_tree (w : World) (start_url save_dir : string) (t : task) : Prop :=
  exists d soup,
    reachable w start_url d /\ listing w d = Some soup
    /\ In t (dcm_tasks w d save_dir soup).

(** The states the crawl can be in when it starts a unit: the initial
    state, and what a unit of the tree, or something that only writes
    to the log, makes of such a state. *)
Inductive crawl_reaches (w : World) (start_url save_dir : string) (st0 : state)
  : state -> Prop :=
| reaches_init : crawl_reaches w start_url save_dir st0 st0
| reaches_log st st' :
    crawl_reaches w start_url save_dir st0 st ->
    files st' = files st -> dirs st' = dirs st ->
    crawl_reaches w start_url save_dir st0 st'
| reaches_unit st t :
    crawl_reaches w start_url save_dir st0 st ->
    in_tree w start_url save_dir t ->
    crawl_reaches w start_url save_dir st0
      (snd (download_and_convert w (t_url t) (t_dcm t) (t_jpg t) st)).

(** A convertible file of the crawl tree: a file of the tree whose
    download-and-convert unit returns [True] whenever the crawl runs it. *)
Definition convertible_file (w : World) (start_url save_dir : string) (st0 : state)
  (url : string) : Prop :=
  in_tree w start_url save_dir (task_of save_dir url)
  /\ forall st, crawl_reaches w start_url save_dir st0 st ->
       fst (download_and_convert w url (dcm_local_path save_dir url)
              (jpg_local_path (dcm_local_path save_dir url)) st) = Ok true.

(** The URLs of the units that returned [True]. *)
Fixpoint counted (tasks : list task) (futs : list (result bool)) : list string :=
  match tasks, futs with
  | t :: tasks', Ok true :: futs' => t_url t :: counted tasks' futs'
  | _ :: tasks', _ :: futs' => counted tasks' futs'
  | _, _ => []
  end.

(** A finite site: a list of directories that holds every subdirectory
    link of its members. *)
Definition closed_site (w : World) (site : list string) : Prop :=
  forall d soup u, In d site -> listing w d = Some soup ->
    In u (dir_links w d soup) -> In u site.

(** One more than the number of subdirectory links of a directory. *)
Definition weight (w : World) (d : string) : nat :=
  match listing w d with
  | Some soup => S (length (dir_links w d soup))
  | None => 1
  end.

(** The weights of the directories of [site] not yet in [seen]. *)
Fixpoint pending (w : World) (site : list string) (seen : gset string) : nat :=
  match site with
  | [] => 0
  | d :: site' =>
      ((if bool_decide (d ∈ seen) then 0 else weight w d) + pending w site' seen)%nat
  end.

(** What the crawl loop keeps true between iterations, with [done] the
    URLs of the units counted so far: the start is known; what is known
    is reachable; the links of a visited directory are known, and its
    convertible files are among the counted ones. *)
Definition crawl_inv (w : World) (start_url save_dir : string) (st0 : state)
  (cs : crawl_state) (done : list string) : Prop :=
  (start_url ∈ visited cs \/ In start_url (links_to_visit cs))
  /\ (forall u, u ∈ visited cs \/ In u (links_to_visit cs) -> reachable w start_url u)
  /\ (forall d soup, d ∈ visited cs -> listing w d = Some soup ->
        (forall u, In u (dir_links w d soup) ->
                   u ∈ visited cs \/ In u (links_to_visit cs))
        /\ (forall url, In (task_of save_dir url) (dcm_tasks w d save_dir soup) ->
                        convertible_file w start_url save_dir st0 url ->
                        In url done)).

(* ===================================================================== *)
(** ** The demo site, enumerated *)
(* ===================================================================== *)

#[global] Instance byte_eq_decision : EqDecision byte := Byte.byte_eq_dec.

Module DemoSite.

(** The demo world with an encoder whose output is two bytes long. *)
Definition world : World :=
  mkWorld (Demo.lookup_url Demo.server) Demo.anchors_of Demo.join_url (fun u => u)
          Demo.decode (fun _ _ => EncOk [x4a; x46])
          (fun _ => None) (fun b => (b, true))
          (fun _ _ => false) (fun _ l => rev l).

Definition save_dir : string := "/content/Dataset".

Definition p10 : string := (Demo.root ++ "p10/")%string.
Definition p11 : string := (Demo.root ++ "p11/")%string.

Definition site : list string := [Demo.root; p10; p11].

Definition a_url : string := (p10 ++ "a.dcm")%string.
Definition b_url : string := (p10 ++ "b.dcm")%string.
Definition c_url : string := (p11 ++ "c.dcm")%string.

Definition tasks : list task :=
  [task_of save_dir a_url; task_of save_dir b_url; task_of save_dir c_url].

Definition run_unit (t : task) (st : state) : state :=
  snd (download_and_convert world (t_url t) (t_dcm t) (t_jpg t) st).

Definition fs_of (st : state) : gmap string bytes * gset string := (files st, dirs st).

(** The file systems the units of the demo site can produce, starting
    from the empty one, by the sets of units that have run. *)
Definition fs_states : list (gmap string bytes * gset string) :=
  map (fun units => fs_of (fold_left (fun st t => run_unit t st) units Demo.empty_state))
      [ [];
        [task_of save_dir c_url];
        [task_of save_dir a_url];
        [task_of save_dir b_url];
        [task_of save_dir a_url; task_of save_dir b_url];
        [task_of save_dir c_url; task_of save_dir a_url];
        [task_of save_dir c_url; task_of save_dir b_url];
        [task_of save_dir c_url; task_of save_dir a_url; task_of save_dir b_url] ].

End DemoSite.


(* ===================================================================== *)
(** ** More worlds for examples *)
(* ===================================================================== *)

Module Demo2.

(** A server whose body stream for [a.dcm] breaks after two chunks. *)
Definition world_broken_stream : World :=
  mkWorld (fun url => if String.eqb url (Demo.root ++ "p10/a.dcm")
                      then Some (mkResponse 200 [[x0a]; [x0a]] false)
                      else None)
          Demo.anchors_of Demo.join_url (fun u => u)
          Demo.decode Demo.encode (fun _ => None) (fun b => (b, true))
          (fun _ _ => false) (fun _ l => rev l).

(** A decoder that finds an image without any sample in every file. *)
Definition world_empty_image : World :=
  mkWorld (Demo.lookup_url Demo.server) Demo.anchors_of Demo.join_url (fun u => u)
          (fun _ => Some []) Demo.encode (fun _ => None) (fun b => (b, true))
          (fun _ _ => false) (fun _ l => rev l).

End Demo2.


(** The download of [url] was requested, or the directory for it could
    not be made (and this was printed). *)
Definition attempted (url : string) (evs : list event) : Prop :=
  In (EvGet url true) evs \/ In (EvPrint (MsgFailedToDownload url OSError)) evs.

(** The integers [a + 1, a + 2, ..., b]. *)
Definition count_range (a b : Z) : list Z :=
  map (fun i => a + Z.of_nat i) (seq 1 (Z.to_nat (b - a))).

(* ===================================================================== *)
(** ** A site that also serves the top-level page *)
(* ===================================================================== *)

Module DemoTop.

(** The top-level page offers [LICENSE.txt], which the server does not
    have; the image tree is the one of [Demo.server]. *)
Definition server : list (string * response) :=
  ((TOP_LEVEL_URL, Demo.listing x05) :: Demo.server)%list.

Definition anchors_of (body : bytes) : list anchor :=
  match body with
  | [x05] => [mkAnchor (Some "LICENSE.txt") ["download"]]
  | _ => Demo.anchors_of body
  end.

Definition world : World :=
  mkWorld (Demo.lookup_url server) anchors_of Demo.join_url (fun u => u)
          Demo.decode (fun _ _ => EncOk [x4a; x46])
          (fun _ => None) (fun b => (b, true))
          (fun _ _ => false) (fun _ l => rev l).

End DemoTop.

(* ===================================================================== *)
(** ** Facts about the string primitives *)
(* ===================================================================== *)

Example basename_ex : Py.basename "/content/Dataset/files/p10/a.dcm" = "a.dcm".
Proof. reflexivity. Qed.

Example dirname_ex :
  Py.dirname "/content/Dataset/files/p10/a.dcm" = "/content/Dataset/files/p10"
  /\ Py.dirname "/a.dcm" = "/" /\ Py.dirname "a.dcm" = EmptyString.
Proof. repeat split. Qed.

Example endswith_ex :
  Py.endswith (Py.lower "IMG.DCM") ".dcm" = true /\ Py.endswith "dcm" ".dcm" = false.
Proof. split; reflexivity. Qed.

Example split_once_ex :
  Py.split_once split_key "https://physionet.org/files/mimic-cxr/2.1.0/files/p10/"
  = Some ("https://physionet.org/files/", "files/p10/").
Proof. reflexivity. Qed.

Example relative_local_path_ex :
  relative_local_path "https://physionet.org/files/mimic-cxr/2.1.0/files/p10/p10000032/s1/a.dcm"
  = "files/p10/p10000032/s1/a.dcm".
Proof. reflexivity. Qed.

Example jpg_local_path_ex :
  jpg_local_path "/content/Dataset/files/p10/a.dcm" = "/content/Dataset/files/p10/a.jpg".
Proof. reflexivity. Qed.

Lemma append_nil_l (s : string) : (EmptyString ++ s)%string = s.
Proof. reflexivity. Qed.

Lemma append_cons (c : ascii) (a b : string) :
  (String c a ++ b)%string = String c (a ++ b)%string.
Proof. reflexivity. Qed.

Lemma strip_prefix_app p s r : Py.strip_prefix p s = Some r -> s = (p ++ r)%string.
Proof.
  revert s. induction p as [|a p IH]; intros [|b s]; simpl.
  - now intros [= <-].
  - now intros [= <-].
  - discriminate.
  - destruct (Ascii.eqb_spec a b) as [->|]; [|discriminate].
    intros H. rewrite append_cons. f_equal. now apply IH.
Qed.

Lemma split_once_app key s a b :
  Py.split_once key s = Some (a, b) -> s = (a ++ key ++ b)%string.
Proof.
  revert a b. induction s as [|c s IH]; intros a b; simpl.
  - destruct (Py.strip_prefix key EmptyString) eqn:E; [|discriminate].
    intros [= <- <-]. rewrite append_nil_l. now apply strip_prefix_app.
  - destruct (Py.strip_prefix key (String c s)) eqn:E.
    + intros [= <- <-]. rewrite append_nil_l. now apply strip_prefix_app.
    + destruct (Py.split_once key s) as [[a' b']|] eqn:E'; [|discriminate].
      intros [= <- <-]. rewrite append_cons. f_equal. now apply IH.
Qed.

Lemma lstrip_slash_id s : Py.startswith s "/" = false -> Py.lstrip_slash s = s.
Proof.
  destruct s as [|c s]; [reflexivity|].
  unfold Py.startswith. simpl.
  destruct (Ascii.eqb_spec "/"%char c) as [<-|Hne]; [discriminate|].
  intros _. destruct c as [[] [] [] [] [] [] [] []]; try reflexivity.
  now contradict Hne.
Qed.

Lemma append_cancel_l (a b1 b2 : string) : (a ++ b1 = a ++ b2)%string -> b1 = b2.
Proof.
  induction a as [|c a IH]; [now rewrite !append_nil_l|].
  rewrite !append_cons. intros [= H]. auto.
Qed.

Lemma join_inj a b1 b2 :
  Py.startswith b1 "/" = false -> Py.startswith b2 "/" = false ->
  Py.join a b1 = Py.join a b2 -> b1 = b2.
Proof.
  unfold Py.join. intros -> ->.
  destruct (String.eqb a EmptyString || Py.endswith a "/"); intros H.
  - eapply append_cancel_l; eauto.
  - apply append_cancel_l in H. rewrite !append_cons, !append_nil_l in H.
    now injection H.
Qed.

(* ===================================================================== *)
(** ** C7: the remote-to-local path mapping *)
(* ===================================================================== *)

(** C7, as stated, is false: two distinct URLs with the same text before
    ['mimic-cxr/2.1.0/'] map to the same local path when one of them has
    extra slashes right after that prefix, because [relative_local_path]
    strips every leading slash of the remainder. *)
Lemma relative_local_path_not_injective :
  ~ (forall pre u1 u2 r1 r2,
        Py.split_once split_key u1 = Some (pre, r1) ->
        Py.split_once split_key u2 = Some (pre, r2) ->
        dcm_local_path "/content/Dataset" u1 = dcm_local_path "/content/Dataset" u2 ->
        u1 = u2).
Proof.
  intros H.
  specialize (H "https://physionet.org/files/"
                "https://physionet.org/files/mimic-cxr/2.1.0/files/p10/a.dcm"
                "https://physionet.org/files/mimic-cxr/2.1.0//files/p10/a.dcm"
                "files/p10/a.dcm" "/files/p10/a.dcm"
                eq_refl eq_refl eq_refl).
  discriminate H.
Qed.

(** C7 (amended): the derivation is a function of the URL (the same URL
    gives the same local path), and it is injective on the URLs that
    share the text before the first ['mimic-cxr/2.1.0/'] and whose
    remainder after it does not begin with a slash. *)
Theorem local_path_deterministic_injective (save_dir : string) :
  (forall u1 u2, u1 = u2 -> dcm_local_path save_dir u1 = dcm_local_path save_dir u2)
  /\ (forall pre u1 u2 r1 r2,
        Py.split_once split_key u1 = Some (pre, r1) ->
        Py.split_once split_key u2 = Some (pre, r2) ->
        Py.startswith r1 "/" = false ->
        Py.startswith r2 "/" = false ->
        dcm_local_path save_dir u1 = dcm_local_path save_dir u2 ->
        u1 = u2).
Proof.
  split; [now intros ? ? ->|].
  intros pre u1 u2 r1 r2 H1 H2 S1 S2 Heq.
  unfold dcm_local_path, relative_local_path in Heq.
  rewrite H1, H2, !lstrip_slash_id in Heq by assumption.
  apply join_inj in Heq; try assumption. subst r2.
  apply split_once_app in H1, H2. congruence.
Qed.

Lemma local_path_deterministic_injective_witness :
  "https://physionet.org/files/mimic-cxr/2.1.0/files/p10/a.dcm"
  = "https://physionet.org/files/mimic-cxr/2.1.0/files/p10/a.dcm".
Proof.
  apply (proj2 (local_path_deterministic_injective "/content/Dataset")
               "https://physionet.org/files/" _ _ "files/p10/a.dcm" "files/p10/a.dcm");
    reflexivity.
Defined.

(* ===================================================================== *)
(** ** C10: [download_file] on an HTTP error *)
(* ===================================================================== *)



(* ===================================================================== *)
(** ** The quality search of [dicom_to_jpg] *)
(* ===================================================================== *)

Lemma quality_loop_step w arr target quality encimg :
  quality_loop w arr target quality encimg =
  if quality <? 10 then
    match encimg with
    | Some b => Accepted b
    | None => EncodeRaised NameError
    end
  else
    match imencode w arr quality with
    | EncRaise => EncodeRaised CvError
    | EncNotOk => NotOk
    | EncOk b =>
        if Z.of_nat (length b) <=? target then Accepted b
        else quality_loop w arr target (quality - 10) (Some b)
    end.
Proof.
  simp quality_loop. destruct (Z_lt_dec quality 10) as [H|H]; simpl.
  - apply Z.ltb_lt in H. now rewrite H.
  - apply Z.ltb_nlt in H. now rewrite H.
Qed.

(** The loop of the source visits exactly the levels 90, 80, ..., 10. *)
Lemma select_encoding_levels w arr target :
  select_encoding w arr target = search_levels w arr target qualities None.
Proof.
  unfold select_encoding, qualities.
  repeat (rewrite quality_loop_step; simpl;
          destruct (imencode w arr _) as [b| |]; try reflexivity;
          destruct (Z.of_nat (length b) <=? target); try reflexivity;
          clear b).
  all: now rewrite quality_loop_step.
Qed.

Section Search.
Context (w : World) (arr : list Z) (target : Z) (enc : Z -> bytes).

Local Abbreviation too_large := (too_large w arr target enc).

Lemma search_first_fit hi q lo last :
  Forall too_large hi ->
  imencode w arr q = EncOk (enc q) ->
  Z.of_nat (length (enc q)) <= target ->
  search_levels w arr target (hi ++ q :: lo) last = Accepted (enc q).
Proof.
  intros Hhi Hq Hfit. revert last.
  induction Hhi as [|q' hi [He Hl] _ IH]; intros last; simpl.
  - rewrite Hq. now apply Z.leb_le in Hfit as ->.
  - rewrite He. apply Z.leb_gt in Hl as ->. apply IH.
Qed.

Lemma search_none_fit levels q last :
  Forall too_large (levels ++ [q]) ->
  search_levels w arr target (levels ++ [q]) last = Accepted (enc q).
Proof.
  revert last. induction levels as [|q' levels IH]; intros last H; simpl.
  - apply Forall_inv in H as [He Hl]. rewrite He. now apply Z.leb_gt in Hl as ->.
  - inversion H as [|? ? [He Hl] H']; subst. rewrite He.
    apply Z.leb_gt in Hl as ->. now apply IH.
Qed.

Lemma search_encoder_fails hi q lo last :
  Forall too_large hi ->
  imencode w arr q = EncNotOk \/ imencode w arr q = EncRaise ->
  search_levels w arr target (hi ++ q :: lo) last = NotOk
  \/ search_levels w arr target (hi ++ q :: lo) last = EncodeRaised CvError.
Proof.
  intros Hhi Hq. revert last.
  induction Hhi as [|q' hi [He Hl] _ IH]; intros last; simpl.
  - destruct Hq as [-> | ->]; auto.
  - rewrite He. apply Z.leb_gt in Hl as ->. apply IH.
Qed.

(** Every level is a prefix of higher levels followed by itself. *)
Lemma qualities_split q :
  In q qualities ->
  exists hi lo, qualities = (hi ++ q :: lo)%list /\ (forall q', In q' hi -> In q' qualities /\ q < q').
Proof.
  unfold qualities. simpl. intros H.
  repeat (destruct H as [<- | H];
          [ match goal with
            | |- exists hi lo, ?l = _ /\ _ => idtac
            end |]); try contradiction.
  - exists [], [80; 70; 60; 50; 40; 30; 20; 10]. split; [reflexivity|]. simpl. tauto.
  - exists [90], [70; 60; 50; 40; 30; 20; 10]. split; [reflexivity|]. simpl. intros ? H; split; [tauto|lia].
  - exists [90; 80], [60; 50; 40; 30; 20; 10]. split; [reflexivity|]. simpl. intros ? H; split; [tauto|lia].
  - exists [90; 80; 70], [50; 40; 30; 20; 10]. split; [reflexivity|]. simpl. intros ? H; split; [tauto|lia].
  - exists [90; 80; 70; 60], [40; 30; 20; 10]. split; [reflexivity|]. simpl. intros ? H; split; [tauto|lia].
  - exists [90; 80; 70; 60; 50], [30; 20; 10]. split; [reflexivity|]. simpl. intros ? H; split; [tauto|lia].
  - exists [90; 80; 70; 60; 50; 40], [20; 10]. split; [reflexivity|]. simpl. intros ? H; split; [tauto|lia].
  - exists [90; 80; 70; 60; 50; 40; 30], [10]. split; [reflexivity|]. simpl. intros ? H; split; [tauto|lia].
  - exists [90; 80; 70; 60; 50; 40; 30; 20], []. split; [reflexivity|]. simpl. intros ? H; split; [tauto|lia].
Qed.

(** The search accepts the encoding of the first level that fits. *)
Lemma select_first_fit q :
  In q qualities ->
  (forall q', In q' qualities -> q < q' -> too_large q') ->
  imencode w arr q = EncOk (enc q) ->
  Z.of_nat (length (enc q)) <= target ->
  select_encoding w arr target = Accepted (enc q).
Proof.
  intros Hq Hhi He Hfit. rewrite select_encoding_levels.
  destruct (qualities_split q Hq) as (hi & lo & E & Hin). rewrite E.
  apply search_first_fit; [|assumption|assumption].
  apply List.Forall_forall. intros q' Hq'. destruct (Hin q' Hq'). auto.
Qed.

(** When no level fits, it accepts the encoding of level 10. *)
Lemma select_none_fit :
  (forall q, In q qualities -> too_large q) ->
  select_encoding w arr target = Accepted (enc 10).
Proof.
  intros H. rewrite select_encoding_levels.
  change qualities with ([90; 80; 70; 60; 50; 40; 30; 20] ++ [10])%list.
  apply search_none_fit. apply List.Forall_forall. intros q Hq. apply H.
  exact Hq.
Qed.

(** An encoder failure at a level that is reached ends the search
    without an accepted encoding. *)
Lemma select_encoder_fails q :
  In q qualities ->
  (forall q', In q' qualities -> q < q' -> too_large q') ->
  imencode w arr q = EncNotOk \/ imencode w arr q = EncRaise ->
  select_encoding w arr target = NotOk
  \/ select_encoding w arr target = EncodeRaised CvError.
Proof.
  intros Hq Hhi He. rewrite select_encoding_levels.
  destruct (qualities_split q Hq) as (hi & lo & E & Hin). rewrite E.
  apply search_encoder_fails; [|assumption].
  apply List.Forall_forall. intros q' Hq'. destruct (Hin q' Hq'). auto.
Qed.

End Search.

(* ===================================================================== *)
(** ** [dicom_to_jpg], path by path *)
(* ===================================================================== *)

Lemma dicom_to_jpg_undecodable w dcm_path jpg_path target st :
  undecodable w dcm_path st ->
  dicom_to_jpg w dcm_path jpg_path target st
  = (Ok tt, emit (EvPrint (MsgCouldNotReadDicom dcm_path)) st).
Proof.
  unfold dicom_to_jpg, bind, try_except, read_file.
  intros [H | (content & H & Hd)]; rewrite H; simpl; [reflexivity|].
  now rewrite Hd.
Qed.

Lemma dicom_to_jpg_decoded w dcm_path jpg_path target st content samples :
  files st !! dcm_path = Some content ->
  dcmread w content = Some samples ->
  dicom_to_jpg w dcm_path jpg_path target st
  = match normalize samples with
    | Raise e => (Raise e, st)
    | Ok n =>
        match select_encoding w (pixels n) target with
        | EncodeRaised e => (Raise e, st)
        | NotOk => (Ok tt, emit (EvPrint (MsgEncodeFailed dcm_path)) st)
        | Accepted encoded =>
            (makedirs w (Py.dirname jpg_path) ;;
             open_wb w jpg_path ;;
             write jpg_path encoded ;;
             try_except (remove w dcm_path) (fun _ => ret tt) ;;
             print (MsgConverted dcm_path jpg_path (Z.of_nat (length encoded))))%monad st
        end
    end.
Proof.
  intros H Hd. unfold dicom_to_jpg. unfold bind at 1, try_except at 1.
  unfold bind at 1, read_file. rewrite H. simpl. rewrite Hd. simpl.
  destruct (normalize samples) as [n|e]; [|reflexivity].
  destruct (select_encoding w (pixels n) target); reflexivity.
Qed.

(** The save-and-clean-up block (lines 171-180) once the directory can
    be made and the target opened: it always ends normally; the target
    holds the encoding; the source is removed when the OS allows it and
    left alone otherwise. *)
Lemma save_block w dcm_path jpg_path encoded st st1 st2 :
  makedirs w (Py.dirname jpg_path) st = (Ok tt, st1) ->
  open_wb w jpg_path st1 = (Ok tt, st2) ->
  let written := <[jpg_path := encoded]> (files st) in
  let removable :=
    match written !! dcm_path with Some _ => negb (denied w OpRemove dcm_path) | None => false end in
  (makedirs w (Py.dirname jpg_path) ;;
   open_wb w jpg_path ;;
   write jpg_path encoded ;;
   try_except (remove w dcm_path) (fun _ => ret tt) ;;
   print (MsgConverted dcm_path jpg_path (Z.of_nat (length encoded))))%monad st
  = (Ok tt,
     mkState (if removable then delete dcm_path written else written)
             (dirs st1)
             (log st ++ [EvMakedirs (Py.dirname jpg_path); EvOpen jpg_path;
                         EvWrite jpg_path encoded; EvRemove dcm_path;
                         EvPrint (MsgConverted dcm_path jpg_path
                                    (Z.of_nat (length encoded)))])%list).
Proof.
  intros Hmk Hop written removable.
  unfold bind at 1. rewrite Hmk. unfold bind at 1. rewrite Hop.
  unfold makedirs in Hmk.
  repeat match type of Hmk with (if ?c then _ else _) = _ => destruct c end;
    try discriminate.
  injection Hmk as <-.
  unfold open_wb in Hop.
  repeat match type of Hop with (if ?c then _ else _) = _ => destruct c end;
    try discriminate.
  injection Hop as <-. simpl.
  unfold bind, write, try_except, remove, print, ret, emit, isfile. simpl.
  rewrite lookup_insert_eq. simpl. rewrite insert_insert_eq.
  subst removable written.
  match goal with
  | |- context [negb (match ?x with Some _ => true | None => false end)] =>
      change x with (<[jpg_path:=encoded]> (files st) !! dcm_path)
  end.
  destruct (<[jpg_path:=encoded]> (files st) !! dcm_path) eqn:E; simpl.
  - destruct (denied w OpRemove dcm_path); simpl; f_equal; f_equal;
      rewrite <- !app_assoc; reflexivity.
  - f_equal; f_equal; rewrite <- !app_assoc; reflexivity.
Qed.

Example normalize_ex :
  normalize [0; 1000; 4095] = Ok (mkNormalized [0; 62; 255] false).
Proof. reflexivity. Qed.

(* ===================================================================== *)
(** ** C4: the size policy of the transcoder *)
(* ===================================================================== *)

(** C4: the quality loop is the search through the levels 90, 80, ...,
    10 in that order; whenever the encoder delivers at the levels that
    are tried, the target file receives the encoding of the first
    (highest) level that fits the ceiling, and the encoding of level 10
    when no level fits. *)
Theorem transcode_size_policy (w : World) (dcm_path jpg_path : string)
  (target : Z) (st st1 st2 : state) (content : bytes) (samples : list Z)
  (n : normalized) (enc : Z -> bytes) :
  files st !! dcm_path = Some content ->
  dcmread w content = Some samples ->
  normalize samples = Ok n ->
  makedirs w (Py.dirname jpg_path) st = (Ok tt, st1) ->
  open_wb w jpg_path st1 = (Ok tt, st2) ->
  jpg_path <> dcm_path ->
  select_encoding w (pixels n) target
    = search_levels w (pixels n) target [90; 80; 70; 60; 50; 40; 30; 20; 10] None
  /\ (forall q,
        In q qualities ->
        (forall q', In q' qualities -> q < q' -> too_large w (pixels n) target enc q') ->
        imencode w (pixels n) q = EncOk (enc q) ->
        Z.of_nat (length (enc q)) <= target ->
        exists st',
          dicom_to_jpg w dcm_path jpg_path target st = (Ok tt, st')
          /\ files st' !! jpg_path = Some (enc q)
          /\ In (EvWrite jpg_path (enc q)) (log st'))
  /\ ((forall q, In q qualities -> too_large w (pixels n) target enc q) ->
        exists st',
          dicom_to_jpg w dcm_path jpg_path target st = (Ok tt, st')
          /\ files st' !! jpg_path = Some (enc 10)
          /\ In (EvWrite jpg_path (enc 10)) (log st')).
Proof.
  intros Hf Hd Hn Hmk Hop Hne.
  assert (Hsave : forall encoded,
             select_encoding w (pixels n) target = Accepted encoded ->
             exists st',
               dicom_to_jpg w dcm_path jpg_path target st = (Ok tt, st')
               /\ files st' !! jpg_path = Some encoded
               /\ In (EvWrite jpg_path encoded) (log st')).
  { intros encoded Hsel.
    rewrite (dicom_to_jpg_decoded _ _ _ _ _ _ _ Hf Hd), Hn, Hsel.
    rewrite (save_block _ _ _ _ _ _ _ Hmk Hop). eexists; split; [reflexivity|].
    cbn [files log]. split.
    - destruct (match _ with Some _ => _ | None => _ end).
      + rewrite lookup_delete_ne by congruence. apply lookup_insert_eq.
      + apply lookup_insert_eq.
    - apply in_or_app. right. simpl. auto. }
  split; [apply select_encoding_levels|]. split.
  - intros q Hq Hhi He Hfit. apply Hsave. eapply select_first_fit; eauto.
  - intros Hall. apply Hsave. eapply select_none_fit; eauto.
Qed.

Lemma transcode_size_policy_witness :
  exists st',
    dicom_to_jpg Demo.world "/d/a.dcm" "/d/a.jpg" 3500
                 (Demo.one_file "/d/a.dcm" [x0a; x0a; x0a]) = (Ok tt, st')
    /\ files st' !! "/d/a.jpg" = Some (Demo.enc 30)
    /\ In (EvWrite "/d/a.jpg" (Demo.enc 30)) (log st').
Proof.
  refine (proj1 (proj2 (transcode_size_policy Demo.world "/d/a.dcm" "/d/a.jpg" 3500
            (Demo.one_file "/d/a.dcm" [x0a; x0a; x0a])
            _ _ [x0a; x0a; x0a] [0; 1000; 4095] (mkNormalized [0; 62; 255] false)
            Demo.enc eq_refl eq_refl eq_refl eq_refl eq_refl _)) 30 _ _ eq_refl _).
  - discriminate.
  - simpl. tauto.
  - intros q' Hq' Hlt. simpl in Hq'.
    repeat (destruct Hq' as [<- | Hq'];
            [first [lia | split; [reflexivity | vm_compute; reflexivity]] |]).
    contradiction.
  - vm_compute. discriminate.
Defined.

(* ===================================================================== *)
(** ** C9: what a transcode job leaves behind *)
(* ===================================================================== *)

(** C9: (1) when the source cannot be decoded the job returns with the
    file system untouched; (2) when the encoder fails at a level the
    search reaches, the job ends with the file system untouched and
    nothing opened or written; (3) when an encoding is accepted and
    saved, the job ends normally whether or not the source could be
    removed: the source is gone when the OS allows the removal, and is
    left as it was (with the target written) when the OS refuses. *)
Theorem transcode_cleanup (w : World) (dcm_path jpg_path : string)
  (target : Z) (st : state) :
  (undecodable w dcm_path st ->
     exists st',
       dicom_to_jpg w dcm_path jpg_path target st = (Ok tt, st')
       /\ files st' = files st /\ dirs st' = dirs st
       /\ log st' = (log st ++ [EvPrint (MsgCouldNotReadDicom dcm_path)])%list)
  /\ (forall content samples n enc q,
        files st !! dcm_path = Some content ->
        dcmread w content = Some samples ->
        normalize samples = Ok n ->
        In q qualities ->
        (forall q', In q' qualities -> q < q' -> too_large w (pixels n) target enc q') ->
        imencode w (pixels n) q = EncNotOk \/ imencode w (pixels n) q = EncRaise ->
        exists r st',
          dicom_to_jpg w dcm_path jpg_path target st = (r, st')
          /\ files st' = files st /\ dirs st' = dirs st
          /\ (log st' = log st
              \/ log st' = (log st ++ [EvPrint (MsgEncodeFailed dcm_path)])%list))
  /\ (forall content samples n encoded st1 st2,
        files st !! dcm_path = Some content ->
        dcmread w content = Some samples ->
        normalize samples = Ok n ->
        select_encoding w (pixels n) target = Accepted encoded ->
        makedirs w (Py.dirname jpg_path) st = (Ok tt, st1) ->
        open_wb w jpg_path st1 = (Ok tt, st2) ->
        exists st',
          dicom_to_jpg w dcm_path jpg_path target st = (Ok tt, st')
          /\ (denied w OpRemove dcm_path = false -> files st' !! dcm_path = None)
          /\ (denied w OpRemove dcm_path = true -> jpg_path <> dcm_path ->
              files st' !! dcm_path = Some content
              /\ files st' !! jpg_path = Some encoded)).
Proof.
  split; [|split].
  - intros H. rewrite (dicom_to_jpg_undecodable _ _ _ _ _ H).
    eexists; split; [reflexivity|]. simpl. auto.
  - intros content samples n enc q Hf Hd Hn Hq Hhi He.
    rewrite (dicom_to_jpg_decoded _ _ _ _ _ _ _ Hf Hd), Hn.
    destruct (select_encoder_fails w (pixels n) target enc q Hq Hhi He) as [-> | ->];
      eexists _, _; (split; [reflexivity|]); simpl; auto.
  - intros content samples n encoded st1 st2 Hf Hd Hn Hsel Hmk Hop.
    rewrite (dicom_to_jpg_decoded _ _ _ _ _ _ _ Hf Hd), Hn, Hsel.
    rewrite (save_block _ _ _ _ _ _ _ Hmk Hop). eexists; split; [reflexivity|].
    cbn [files].
    assert (Hw : is_Some (<[jpg_path:=encoded]> (files st) !! dcm_path)).
    { destruct (decide (jpg_path = dcm_path)) as [->|Hne].
      - rewrite lookup_insert_eq. eauto.
      - rewrite lookup_insert_ne by assumption. rewrite Hf. eauto. }
    destruct Hw as [b Hb]. rewrite Hb. split.
    + intros ->. simpl. apply lookup_delete_eq.
    + intros -> Hne. simpl. split.
      * rewrite lookup_insert_ne by assumption. exact Hf.
      * apply lookup_insert_eq.
Qed.

Lemma transcode_cleanup_witness :
  (exists st',
      dicom_to_jpg Demo.world "/d/b.dcm" "/d/b.jpg" 1000000
                   (Demo.one_file "/d/b.dcm" [x0b]) = (Ok tt, st')
      /\ files st' = {[ "/d/b.dcm" := [x0b] ]} /\ dirs st' = ∅
      /\ log st' = [EvPrint (MsgCouldNotReadDicom "/d/b.dcm")])
  /\ (exists r st',
        dicom_to_jpg Demo.world_weak_encoder "/d/a.dcm" "/d/a.jpg" 3500
                     (Demo.one_file "/d/a.dcm" [x0a; x0a; x0a]) = (r, st')
        /\ files st' = {[ "/d/a.dcm" := [x0a; x0a; x0a] ]} /\ dirs st' = ∅
        /\ (log st' = []
            \/ log st' = [EvPrint (MsgEncodeFailed "/d/a.dcm")]))
  /\ (exists st',
        dicom_to_jpg Demo.world_no_remove "/d/a.dcm" "/d/a.jpg" 1000000
                     (Demo.one_file "/d/a.dcm" [x0a; x0a; x0a]) = (Ok tt, st')
        /\ files st' !! "/d/a.dcm" = Some [x0a; x0a; x0a]
        /\ files st' !! "/d/a.jpg" = Some (Demo.enc 90)).
Proof.
  split; [|split].
  - apply (proj1 (transcode_cleanup Demo.world "/d/b.dcm" "/d/b.jpg" 1000000
                    (Demo.one_file "/d/b.dcm" [x0b]))).
    right. exists [x0b]. split; reflexivity.
  - apply (proj1 (proj2 (transcode_cleanup Demo.world_weak_encoder "/d/a.dcm" "/d/a.jpg" 3500
                    (Demo.one_file "/d/a.dcm" [x0a; x0a; x0a])))
             [x0a; x0a; x0a] [0; 1000; 4095] (mkNormalized [0; 62; 255] false)
             Demo.enc 40 eq_refl eq_refl eq_refl).
    + simpl. tauto.
    + intros q' Hq' Hlt. simpl in Hq'.
      repeat (destruct Hq' as [<- | Hq'];
              [first [lia | split; [reflexivity | vm_compute; reflexivity]] |]).
      contradiction.
    + left. reflexivity.
  - destruct (proj2 (proj2 (transcode_cleanup Demo.world_no_remove "/d/a.dcm" "/d/a.jpg" 1000000
                    (Demo.one_file "/d/a.dcm" [x0a; x0a; x0a])))
             [x0a; x0a; x0a] [0; 1000; 4095] (mkNormalized [0; 62; 255] false)
             (Demo.enc 90) _ _ eq_refl eq_refl eq_refl eq_refl eq_refl eq_refl)
      as (st' & Hrun & _ & Hkeep).
    exists st'. split; [exact Hrun|]. apply Hkeep; [reflexivity | discriminate].
Defined.

(* ===================================================================== *)
(** ** C5: normalisation to 8 bits *)
(* ===================================================================== *)

Example eps_is_1e6 : F32.div (F32.of_int 1) (F32.of_int 1000000) = F32.eps.
Proof. reflexivity. Qed.











Example normalize_gradient :
  normalize [0; 1000; 4095] = Ok (mkNormalized [0; 62; 255] false)
  /\ normalize [-1024; 0; 3071] = Ok (mkNormalized [0; 63; 255] false)
  /\ normalize [5] = Ok (mkNormalized [0] false).
Proof. repeat split. Qed.

(* ===================================================================== *)
(** ** C2: which units are counted *)
(* ===================================================================== *)

(** [dicom_to_jpg] reports a decode failure and an encoder refusal by
    printing and returning; [download_and_convert] sees no exception
    and answers [True]. *)
Lemma download_and_convert_unconverted (w : World) (file_url dcm_path jpg_path : string)
  (st st1 : state) (r : string * Z) :
  download_file w file_url dcm_path st = (Ok r, st1) ->
  undecodable w dcm_path st1 ->
  exists st',
    download_and_convert w file_url dcm_path jpg_path st = (Ok true, st')
    /\ files st' = files st1.
Proof.
  intros Hdl Hun.
  unfold download_and_convert. unfold bind at 1, try_except at 1.
  unfold bind at 1. rewrite Hdl. unfold bind at 1, print at 1, ret at 1.
  cbn beta iota. unfold try_except, bind.
  rewrite dicom_to_jpg_undecodable by exact Hun.
  eexists; split; reflexivity.
Qed.

(** C2 (code at the failing input): in the demo site [b.dcm] is served
    with status 200 but is no DICOM file.  Crawling [p10/] converts
    [a.dcm] only, and still leaves the counter at 2: the unit of
    [b.dcm] returned [True] and was counted although no JPEG exists for
    it and its source is still on disk. *)
Theorem undecodable_unit_is_counted :
  let '(o, cs, st') :=
    crawl_and_convert_dicom Demo.world (Demo.root ++ "p10/") "/content/Dataset" 5 10
                            Demo.empty_state in
  o = Completed
  /\ dcm_count cs = 2
  /\ In (EvPrint (MsgCouldNotReadDicom "/content/Dataset/files/p10/b.dcm")) (log st')
  /\ dom (files st') = {[ "/content/Dataset/files/p10/a.jpg";
                          "/content/Dataset/files/p10/b.dcm" ]}.
Proof. vm_compute. repeat split; auto 20. Qed.

(* ===================================================================== *)
(** ** C3: a listing that cannot be fetched *)
(* ===================================================================== *)

Lemma get_soup_fails (w : World) (url : string) (st : state) :
  fetch_fails w url ->
  exists e, get_soup w url st = (Raise e, emit (EvGet url false) st).
Proof.
  unfold get_soup, bind, session_get.
  intros [H | (r & H & Hr)]; rewrite H; [eauto|].
  destruct (stream_ok r); simpl.
  - destruct Hr as [Hr|Hr]; [discriminate|].
    unfold raise_for_status. rewrite Hr. eauto.
  - eauto.
Qed.

(** C3, as stated, is false: in the demo site with the listing of
    [p11/] answering 500, the crawl does not go on to [p10/]: the
    exception leaves [crawl_and_convert_dicom] with [p10/] still on the
    stack and never requested, and nothing converted. *)
Lemma listing_failure_stops_the_crawl :
  let '(o, cs, st') :=
    crawl_and_convert_dicom Demo.world_broken_listing Demo.root "/content/Dataset" 5 10
                            Demo.empty_state in
  o = Aborted HTTPError
  /\ links_to_visit cs = [(Demo.root ++ "p10/")%string]
  /\ ~ In (EvGet (Demo.root ++ "p10/") false) (log st')
  /\ dcm_count cs = 0
  /\ files st' = ∅.
Proof.
  vm_compute. repeat split; try reflexivity.
  intros H. repeat (destruct H as [H | H]; [discriminate H|]). exact H.
Qed.

(** C3 (amended): a listing that cannot be fetched is fatal.  When the
    directory popped from the stack is new and its fetch fails, the
    exception leaves [crawl_and_convert_dicom] at once: the only thing
    done is the request, the directory is marked visited, the counter
    and the rest of the stack are as they were and no other directory
    is visited.  At the top level this exception is not caught either,
    and a login check that does not answer 200 ends the run with
    [exit(1)] before anything else is done. *)
Theorem listing_failure_is_fatal (w : World) (save_dir : string) (max_files : Z) :
  (forall fuel cs st current_url rest,
      links_to_visit cs = current_url :: rest ->
      dcm_count cs < max_files ->
      current_url ∉ visited cs ->
      fetch_fails w current_url ->
      exists e,
        crawl_loop w save_dir max_files (S fuel) cs st
        = (Aborted e,
           mkCrawl (dcm_count cs) rest ({[current_url]} ∪ visited cs),
           emit (EvGet current_url false) st))
  /\ (forall fuel st st1 st2 st3 test_resp e cs,
        session_get w BASE_DICOM_URL false st = (Ok test_resp, st1) ->
        status_code test_resp = 200 ->
        (print MsgLoginOk ;; download_top_level_files w TOP_LEVEL_URL save_dir)%monad st1
          = (Ok tt, st2) ->
        crawl_and_convert_dicom w BASE_DICOM_URL save_dir max_files fuel st2
          = (Aborted e, cs, st3) ->
        main w save_dir max_files fuel st = (Uncaught e, st3))
  /\ (forall fuel st st1 test_resp,
        session_get w BASE_DICOM_URL false st = (Ok test_resp, st1) ->
        status_code test_resp <> 200 ->
        main w save_dir max_files fuel st
        = (Exit 1, emit (EvPrint MsgLoginFailed) st1)
        /\ files st1 = files st
        /\ log st1 = (log st ++ [EvGet BASE_DICOM_URL false])%list).
Proof.
  split; [|split].
  - intros fuel cs st current_url rest Hl Hc Hv Hf.
    destruct (get_soup_fails w current_url st Hf) as [e He].
    exists e. cbn [crawl_loop]. rewrite Hl.
    apply Z.ltb_lt in Hc as ->. cbn [negb].
    rewrite bool_decide_eq_false_2 by assumption.
    unfold visit_directory. unfold bind at 1. rewrite He. reflexivity.
  - intros fuel st st1 st2 st3 test_resp e cs Hlogin Hcode Htop Hcrawl.
    unfold main. rewrite Hlogin, Hcode. cbn [Z.eqb Pos.eqb].
    rewrite Htop, Hcrawl. reflexivity.
  - intros fuel st st1 test_resp Hlogin Hcode.
    unfold main. rewrite Hlogin. apply Z.eqb_neq in Hcode as ->.
    split; [reflexivity|].
    unfold session_get in Hlogin.
    destruct (http w BASE_DICOM_URL) as [r|]; [|discriminate].
    destruct (negb false && negb (stream_ok r)); [discriminate|].
    injection Hlogin as _ <-. split; reflexivity.
Qed.

Lemma listing_failure_is_fatal_witness :
  (exists e,
      crawl_loop Demo.world_broken_listing "/content/Dataset" 5 1
                 (mkCrawl 0 [(Demo.root ++ "p11/")%string; (Demo.root ++ "p10/")%string]
                          {[ Demo.root ]})
                 Demo.empty_state
      = (Aborted e,
         mkCrawl 0 [(Demo.root ++ "p10/")%string]
                 ({[ (Demo.root ++ "p11/")%string ]} ∪ {[ Demo.root ]}),
         emit (EvGet (Demo.root ++ "p11/") false) Demo.empty_state))
  /\ (main Demo.world_logged_out "/content/Dataset" 5 10 Demo.empty_state
      = (Exit 1, emit (EvPrint MsgLoginFailed)
                      (emit (EvGet BASE_DICOM_URL false) Demo.empty_state))
      /\ files (emit (EvGet BASE_DICOM_URL false) Demo.empty_state) = files Demo.empty_state
      /\ log (emit (EvGet BASE_DICOM_URL false) Demo.empty_state)
         = (log Demo.empty_state ++ [EvGet BASE_DICOM_URL false])%list).
Proof.
  split.
  - destruct (proj1 (listing_failure_is_fatal Demo.world_broken_listing "/content/Dataset" 5)
             0%nat
             (mkCrawl 0 [(Demo.root ++ "p11/")%string; (Demo.root ++ "p10/")%string]
                      {[ Demo.root ]})
             Demo.empty_state (Demo.root ++ "p11/")%string [(Demo.root ++ "p10/")%string])
      as [e He].
    + reflexivity.
    + simpl. lia.
    + vm_compute. intros H. discriminate H.
    + right. exists (mkResponse 500 [] true). split; [reflexivity|]. right. reflexivity.
    + exists e. exact He.
  - apply (proj2 (proj2 (listing_failure_is_fatal Demo.world_logged_out "/content/Dataset" 5))
             10%nat Demo.empty_state _ (mkResponse 403 [] true)).
    + reflexivity.
    + simpl. lia.
Defined.

(* ===================================================================== *)
(** ** How the file-system primitives change the state *)
(* ===================================================================== *)

Lemma makedirs_inv w d st r st' :
  makedirs w d st = (r, st') ->
  files st' = files st /\ dirs st ⊆ dirs st' /\ (r = Ok tt -> d ∈ dirs st').
Proof.
  unfold makedirs. intros H.
  repeat match type of H with (if ?c then _ else _) = _ => destruct c end;
    injection H as <- <-; cbn [files dirs emit]; (split; [reflexivity|]);
    (split; [set_solver|]); try discriminate.
  intros _. apply elem_of_union_l, elem_of_list_to_set, elem_of_app. right.
  apply list_elem_of_singleton. reflexivity.
Qed.

Lemma open_wb_inv w p st r st' :
  open_wb w p st = (r, st') ->
  dirs st' = dirs st
  /\ ((r = Ok tt /\ files st' = <[p := []]> (files st) /\ p <> EmptyString)
      \/ ((exists e, r = Raise e) /\ files st' = files st)).
Proof.
  unfold open_wb. intros H.
  destruct (String.eqb_spec p EmptyString) as [->|Hne].
  - injection H as <- <-. split; [reflexivity|]. right. eauto.
  - repeat match type of H with (if ?c then _ else _) = _ => destruct c end;
      injection H as <- <-; cbn [files dirs emit]; (split; [reflexivity|]);
      [right; eauto | right; eauto | left; auto].
Qed.

Lemma remove_inv w p st r st' :
  remove w p st = (r, st') ->
  dirs st' = dirs st
  /\ ((r = Ok tt /\ files st' = delete p (files st))
      \/ ((exists e, r = Raise e) /\ files st' = files st)).
Proof.
  unfold remove. intros H.
  repeat match type of H with (if ?c then _ else _) = _ => destruct c end;
    injection H as <- <-; cbn [files dirs emit]; (split; [reflexivity|]);
    [right; eauto | right; eauto | left; auto].
Qed.

Lemma write_inv p data st :
  write p data st
  = (Ok tt, mkState (<[p := (default [] (files st !! p) ++ data)%list]> (files st))
                    (dirs st) (log st ++ [EvWrite p data])%list).
Proof. reflexivity. Qed.


(* ===================================================================== *)
(** ** C8: archive extraction *)
(* ===================================================================== *)


Lemma take_length n s : String.length (Py.take n s) = Nat.min n (String.length s).
Proof.
  revert s. induction n as [|n IH]; intros [|c s]; simpl; auto.
Qed.

Lemma drop_last_neq s : Py.drop_last 3 s <> EmptyString -> Py.drop_last 3 s <> s.
Proof.
  intros Hne Heq. apply (f_equal String.length) in Heq.
  unfold Py.drop_last in Heq. rewrite take_length in Heq.
  destruct s as [|c s]; [now apply Hne|]. simpl in Heq. lia.
Qed.






(* ===================================================================== *)
(** ** What each function adds to the event log *)
(* ===================================================================== *)

Section Emits.
Context (P : event -> Prop).

Lemma emits_ret {A} (a : A) : emits_only P (ret a).
Proof. intros st r st' [= <- <-]. exists []. now rewrite app_nil_r. Qed.

Lemma emits_raise {A} (e : exn) : emits_only P (@raise A e).
Proof. intros st r st' [= <- <-]. exists []. now rewrite app_nil_r. Qed.

Lemma emits_bind {A B} (m : M A) (k : A -> M B) :
  emits_only P m -> (forall a, emits_only P (k a)) -> emits_only P (bind m k).
Proof.
  intros Hm Hk st r st' H. unfold bind in H.
  destruct (m st) as [[a|e] st1] eqn:E.
  - destruct (Hm _ _ _ E) as (l1 & E1 & H1).
    destruct (Hk a _ _ _ H) as (l2 & E2 & H2).
    exists (l1 ++ l2)%list. rewrite E2, E1, app_assoc. split; [reflexivity|].
    now apply Forall_app.
  - injection H as <- <-. eauto.
Qed.

Lemma emits_try {A} (m : M A) (h : exn -> M A) :
  emits_only P m -> (forall e, emits_only P (h e)) -> emits_only P (try_except m h).
Proof.
  intros Hm Hh st r st' H. unfold try_except in H.
  destruct (m st) as [[a|e] st1] eqn:E.
  - injection H as <- <-. eauto.
  - destruct (Hm _ _ _ E) as (l1 & E1 & H1).
    destruct (Hh e _ _ _ H) as (l2 & E2 & H2).
    exists (l1 ++ l2)%list. rewrite E2, E1, app_assoc. split; [reflexivity|].
    now apply Forall_app.
Qed.

Lemma emits_one {A} (m : M A) (ev : event) :
  P ev -> (forall st, log (snd (m st)) = (log st ++ [ev])%list) -> emits_only P m.
Proof.
  intros Hev Hlog st r st' H. exists [ev].
  specialize (Hlog st). rewrite H in Hlog. split; [exact Hlog|]. now constructor.
Qed.

Lemma emits_none {A} (m : M A) :
  (forall st, log (snd (m st)) = log st) -> emits_only P m.
Proof.
  intros Hlog st r st' H. exists [].
  specialize (Hlog st). rewrite H in Hlog. rewrite app_nil_r. split; [exact Hlog|constructor].
Qed.

Lemma emits_print m : P (EvPrint m) -> emits_only P (print m).
Proof. intros H. apply (emits_one _ (EvPrint m)); auto. Qed.

Lemma emits_makedirs w d : P (EvMakedirs d) -> emits_only P (makedirs w d).
Proof.
  intros H. apply (emits_one _ (EvMakedirs d)); auto.
  intros st. unfold makedirs.
  repeat match goal with |- context [if ?c then _ else _] => destruct c end; reflexivity.
Qed.

Lemma emits_open_wb w p : P (EvOpen p) -> emits_only P (open_wb w p).
Proof.
  intros H. apply (emits_one _ (EvOpen p)); auto.
  intros st. unfold open_wb.
  repeat match goal with |- context [if ?c then _ else _] => destruct c end; reflexivity.
Qed.

Lemma emits_write p data : P (EvWrite p data) -> emits_only P (write p data).
Proof. intros H. apply (emits_one _ (EvWrite p data)); auto. Qed.

Lemma emits_remove w p : P (EvRemove p) -> emits_only P (remove w p).
Proof.
  intros H. apply (emits_one _ (EvRemove p)); auto.
  intros st. unfold remove.
  repeat match goal with |- context [if ?c then _ else _] => destruct c end; reflexivity.
Qed.

Lemma emits_read_file p : emits_only P (read_file p).
Proof. apply emits_none. intros st. unfold read_file. now destruct (files st !! p). Qed.

Lemma emits_session_get w url stream :
  P (EvGet url stream) -> emits_only P (session_get w url stream).
Proof.
  intros H. apply (emits_one _ (EvGet url stream)); auto.
  intros st. unfold session_get. destruct (http w url); [|reflexivity].
  now destruct (negb stream && negb (stream_ok r)).
Qed.

Lemma emits_raise_for_status r : emits_only P (raise_for_status r).
Proof.
  unfold raise_for_status. destruct (is_error_status _);
    [apply emits_raise | apply emits_ret].
Qed.

End Emits.

(** One step through a monadic definition. *)
Ltac emits_step :=
  first
    [ apply emits_bind; [|intros ?]
    | apply emits_try; [|intros ?]
    | apply emits_ret
    | apply emits_raise
    | apply emits_print; exact I
    | apply emits_makedirs; exact I
    | apply emits_open_wb; exact I
    | apply emits_write; exact I
    | apply emits_remove; exact I
    | apply emits_read_file
    | apply emits_session_get; exact I
    | apply emits_raise_for_status
    | match goal with
      | |- emits_only _ (if ?c then _ else _) => destruct c
      | |- emits_only _ (match ?x with _ => _ end) => destruct x
      end ].

Lemma worker_write_chunks path cs size : emits_only worker_event (write_chunks path cs size).
Proof.
  revert size. induction cs as [|chunk cs IH]; intros size; simpl.
  - apply emits_ret.
  - destruct chunk; [apply IH|]. repeat emits_step. apply IH.
Qed.

Lemma worker_download_file w url path : emits_only worker_event (download_file w url path).
Proof.
  unfold download_file. repeat emits_step. apply worker_write_chunks.
  all: repeat emits_step.
Qed.

Lemma worker_dicom_to_jpg w dcm jpg target : emits_only worker_event (dicom_to_jpg w dcm jpg target).
Proof. unfold dicom_to_jpg. repeat emits_step. Qed.

Lemma worker_download_and_convert w url dcm jpg :
  emits_only worker_event (download_and_convert w url dcm jpg).
Proof.
  unfold download_and_convert. repeat emits_step.
  all: try apply worker_write_chunks. all: repeat emits_step.
Qed.

Lemma listing_fetches_app l1 l2 :
  listing_fetches (l1 ++ l2) = (listing_fetches l1 ++ listing_fetches l2)%list.
Proof. apply flat_map_app. Qed.

Lemma counter_values_app l1 l2 :
  counter_values (l1 ++ l2) = (counter_values l1 ++ counter_values l2)%list.
Proof. apply flat_map_app. Qed.

Lemma worker_events_silent l :
  Forall worker_event l -> listing_fetches l = [] /\ counter_values l = [].
Proof.
  induction 1 as [|e l He _ [IH1 IH2]]; [split; reflexivity|].
  unfold listing_fetches, counter_values in *. simpl. rewrite IH1, IH2.
  destruct e as [url [] | | | | | []]; simpl in *; try contradiction; auto.
Qed.

Lemma scan_links_spec w current_url save_dir links stack :
  scan_links w current_url save_dir links stack
  = ((rev (dir_links w current_url links) ++ stack)%list,
     dcm_tasks w current_url save_dir links).
Proof.
  revert stack. unfold dir_links, dcm_tasks.
  induction links as [|link links IH]; intros stack; [reflexivity|].
  cbn [scan_links map]. fold (href_of link).
  cbn [List.filter]. unfold wanted_dir at 1, wanted_dcm at 1.
  destruct (String.eqb (href_of link) EmptyString || String.eqb (href_of link) "../");
    cbn [negb andb]; [apply IH|].
  destruct (Py.endswith (href_of link) "/"); cbn [negb andb].
  - rewrite IH. cbn [map rev]. now rewrite <- app_assoc.
  - destruct (Py.endswith (Py.lower (href_of link)) ".dcm").
    + rewrite IH. reflexivity.
    + apply IH.
Qed.

Lemma get_soup_inv w url st r st' :
  get_soup w url st = (r, st') ->
  st' = emit (EvGet url false) st
  /\ forall soup, r = Ok soup -> listing w url = Some soup.
Proof.
  unfold get_soup, bind, session_get, listing. intros H.
  destruct (http w url) as [resp|]; [|injection H as <- <-; split; [reflexivity|discriminate]].
  cbn [negb andb] in H. destruct (stream_ok resp); cbn [negb] in H.
  - unfold raise_for_status in H. destruct (is_error_status (status_code resp)).
    + injection H as <- <-. split; [reflexivity|discriminate].
    + injection H as <- <-. split; [reflexivity|]. now intros soup [= <-].
  - injection H as <- <-. split; [reflexivity|discriminate].
Qed.

(** The pool runs every call; no exception leaves [submit_all].  [I] is
    any property of the state that the calls preserve. *)
Lemma submit_all_inv {A} (I : state -> Prop) (calls : list (M A)) st :
  Forall (emits_only worker_event) calls ->
  Forall (fun m => forall st0, I st0 -> I (snd (m st0))) calls ->
  I st ->
  exists futs st' added,
    submit_all calls st = (Ok futs, st')
    /\ Forall2 (fun m fut => exists st0, I st0 /\ fst (m st0) = fut) calls futs
    /\ log st' = (log st ++ added)%list
    /\ Forall worker_event added
    /\ I st'.
Proof.
  intros Hall HI. revert st.
  induction Hall as [|m calls Hm _ IH]; intros st Hst.
  - exists [], st, []. rewrite app_nil_r. repeat split; auto; constructor.
  - apply Forall_cons in HI as [HIm HI].
    cbn [submit_all]. unfold bind at 1. unfold run_future.
    destruct (m st) as [r st1] eqn:E.
    destruct (Hm _ _ _ E) as (l1 & E1 & H1).
    assert (Hst1 : I st1) by (specialize (HIm st Hst); now rewrite E in HIm).
    destruct (IH HI st1 Hst1) as (futs & st' & l2 & E2 & HF & El & H2 & Hst').
    unfold bind. rewrite E2. unfold ret.
    exists (r :: futs), st', (l1 ++ l2)%list. split; [reflexivity|]. split.
    + constructor; [|exact HF]. exists st. split; [exact Hst|]. now rewrite E.
    + rewrite El, E1, app_assoc. split; [reflexivity|]. split; [|exact Hst'].
      now apply Forall_app.
Qed.

Lemma successes_perm l1 l2 : Permutation l1 l2 -> successes l1 = successes l2.
Proof.
  unfold successes. induction 1; simpl; auto.
  - destruct x as [[]|]; simpl; auto.
  - destruct x as [[]|], y as [[]|]; simpl; auto.
  - congruence.
Qed.

(** The completion loop: it never raises, it only prints, and it leaves
    the counter at [min max_files (count + successes)] when it starts
    below the budget. *)
Lemma collect_inv max_files futs count st :
  exists c st' added,
    collect max_files futs count st = (Ok c, st')
    /\ files st' = files st /\ dirs st' = dirs st
    /\ log st' = (log st ++ added)%list
    /\ listing_fetches added = []
    /\ Forall (fun n => count < n <= c) (counter_values added)
    /\ count <= c
    /\ (count < max_files -> c = Z.min max_files (count + Z.of_nat (successes futs)))
    /\ (max_files <= count -> c = count).
Proof.
  revert count st. induction futs as [|fut futs IH]; intros count st.
  - exists count, st, []. rewrite app_nil_r. cbn [collect ret successes List.filter length].
    repeat split; auto; try constructor; lia.
  - cbn [collect]. destruct (Z.geb_spec count max_files) as [Hge|Hlt].
    { exists count, st, []. rewrite app_nil_r. repeat split; auto; try constructor; lia. }
    destruct fut as [[]|e].
    + (* a success *)
      unfold bind at 1. unfold bind at 1. unfold print at 1, ret at 1.
      destruct (Z.geb_spec (count + 1) max_files) as [Hge1|Hlt1].
      * eexists _, _, [_]. split; [reflexivity|]. cbn [files dirs log emit].
        repeat split; auto; try lia.
        -- repeat constructor; lia.
        -- intros _. unfold successes. cbn [List.filter length]. lia.
      * destruct (IH (count + 1) (emit (EvPrint (MsgProcessed (count + 1))) st))
          as (c & st' & added & E & Hf & Hd & El & Hq & Hc & Hle & Hmin & Hmax).
        rewrite E. exists c, st', (EvPrint (MsgProcessed (count + 1)) :: added).
        split; [reflexivity|]. rewrite Hf, Hd, El. cbn [files dirs log emit].
        rewrite <- app_assoc.
        change (counter_values (EvPrint (MsgProcessed (count + 1)) :: added))
          with (count + 1 :: counter_values added).
        change (listing_fetches (EvPrint (MsgProcessed (count + 1)) :: added))
          with (listing_fetches added).
        split; [reflexivity|]. split; [reflexivity|]. split; [reflexivity|].
        split; [exact Hq|]. split.
        { constructor; [lia|]. eapply List.Forall_impl; [|exact Hc]. cbn beta. lia. }
        split; [lia|]. split; [|lia].
        intros _. rewrite Hmin by lia. unfold successes. cbn [List.filter length]. lia.
    + (* the unit returned False *)
      unfold bind at 1. unfold ret at 1.
      destruct (Z.geb_spec count max_files) as [Hge1|_]; [lia|].
      destruct (IH count st) as (c & st' & added & E & Hf & Hd & El & Hq & Hc & Hle & Hmin & Hmax).
      rewrite E. exists c, st', added. repeat split; auto; try lia.
    + (* [fut.result()] raised *)
      unfold bind at 1. unfold print at 1.
      destruct (IH count (emit (EvPrint (MsgErrorOnDicom e)) st))
        as (c & st' & added & E & Hf & Hd & El & Hq & Hc & Hle & Hmin & Hmax).
      rewrite E. exists c, st', (EvPrint (MsgErrorOnDicom e) :: added).
      split; [reflexivity|]. rewrite Hf, Hd, El. cbn [files dirs log emit].
      rewrite <- app_assoc. repeat split; auto; try lia.
Qed.

(** One directory: the listing request comes first and is the only one;
    when the listing arrives, the stack receives the subdirectories,
    every scheduled unit is run, and the counter moves as [collect]
    says.  [I] is any property of the file system that the scheduled
    units preserve. *)
Lemma visit_directory_inv (I : state -> Prop) w save_dir max_files current_url
  count stack st r st' :
  (forall st1 st2, I st1 -> files st2 = files st1 -> dirs st2 = dirs st1 -> I st2) ->
  (forall soup t, listing w current_url = Some soup ->
                  In t (dcm_tasks w current_url save_dir soup) ->
                  forall st0, I st0 ->
                    I (snd (download_and_convert w (t_url t) (t_dcm t) (t_jpg t) st0))) ->
  I st ->
  visit_directory w save_dir max_files current_url count stack st = (r, st') ->
  exists added,
    log st' = (log st ++ EvGet current_url false :: added)%list
    /\ listing_fetches added = []
    /\ I st'
    /\ match r with
       | Raise _ => added = []
       | Ok (c, stack') =>
           exists soup futs,
             listing w current_url = Some soup
             /\ stack' = (rev (dir_links w current_url soup) ++ stack)%list
             /\ Forall2 (fun t fut =>
                           exists st0, I st0 /\
                             fst (download_and_convert w (t_url t) (t_dcm t) (t_jpg t) st0) = fut)
                        (dcm_tasks w current_url save_dir soup) futs
             /\ Forall (fun n => count < n <= c) (counter_values added)
             /\ count <= c
             /\ (count < max_files ->
                 c = Z.min max_files (count + Z.of_nat (successes (as_completed w _ futs))))
             /\ (max_files <= count -> c = count)
       end.
Proof.
  intros Hfs Hunit Hst.
  unfold visit_directory. unfold bind at 1. intros H.
  destruct (get_soup w current_url st) as [[soup|e] st1] eqn:Hsoup.
  2:{ apply get_soup_inv in Hsoup as [-> _]. injection H as <- <-.
      exists []. cbn [log emit]. repeat split; auto. eapply Hfs; eauto. }
  apply get_soup_inv in Hsoup as [-> Hl]. specialize (Hl soup eq_refl).
  rewrite scan_links_spec in H. unfold bind at 1 in H.
  set (calls := map _ (dcm_tasks w current_url save_dir soup)) in H.
  destruct (submit_all_inv I calls (emit (EvGet current_url false) st))
    as (futs & st2 & l1 & E1 & HF & El1 & Hw1 & Hst2).
  { subst calls. apply List.Forall_forall. intros m Hm.
    apply in_map_iff in Hm as (t & <- & _). apply worker_download_and_convert. }
  { subst calls. apply List.Forall_forall. intros m Hm.
    apply in_map_iff in Hm as (t & <- & Ht). now apply (Hunit soup). }
  { eapply Hfs; eauto. }
  rewrite E1 in H. unfold bind at 1 in H.
  destruct (collect_inv max_files (as_completed w _ futs) count st2)
    as (c & st3 & l2 & E2 & Hf3 & Hd3 & El2 & Hq2 & Hc2 & Hle & Hmin & Hmax).
  rewrite E2 in H. injection H as <- <-.
  apply worker_events_silent in Hw1 as [Hq1 Hc1].
  exists (l1 ++ l2)%list. rewrite El2, El1. cbn [log emit].
  rewrite <- !app_assoc. split; [reflexivity|].
  rewrite listing_fetches_app, Hq1, Hq2. split; [reflexivity|].
  split; [eapply Hfs; eauto|].
  exists soup, futs. split; [exact Hl|]. split; [reflexivity|]. split.
  - subst calls. clear -HF. revert futs HF.
    induction (dcm_tasks w current_url save_dir soup) as [|t ts IH]; intros futs HF.
    + inversion HF; subst. constructor.
    + cbn [map] in HF. inversion HF as [|? ? ? ? Hh Ht]; subst.
      constructor; [exact Hh|]. now apply IH.
  - rewrite counter_values_app, Hc1. cbn [app]. auto.
Qed.

Lemma crawl_log_nothing max_files cs st :
  exists added,
    log st = (log st ++ added)%list
    /\ NoDup (listing_fetches added)
    /\ (forall u, In u (listing_fetches added) -> u ∉ visited cs)
    /\ (forall u, u ∈ visited cs <-> u ∈ visited cs \/ In u (listing_fetches added))
    /\ dcm_count cs <= dcm_count cs
    /\ (dcm_count cs <= max_files -> dcm_count cs <= max_files)
    /\ Forall (fun n => dcm_count cs < n <= dcm_count cs) (counter_values added).
Proof.
  exists []. rewrite app_nil_r. cbn.
  split; [reflexivity|]. split; [constructor|]. split; [intros u []|].
  split; [tauto|]. split; [lia|]. split; [tauto|constructor].
Qed.

(** What the crawl loop adds to the log, and how its variables move. *)
Lemma crawl_loop_log w save_dir max_files fuel cs st o cs' st' :
  crawl_loop w save_dir max_files fuel cs st = (o, cs', st') ->
  exists added,
    log st' = (log st ++ added)%list
    /\ NoDup (listing_fetches added)
    /\ (forall u, In u (listing_fetches added) -> u ∉ visited cs)
    /\ (forall u, u ∈ visited cs' <-> u ∈ visited cs \/ In u (listing_fetches added))
    /\ dcm_count cs <= dcm_count cs'
    /\ (dcm_count cs <= max_files -> dcm_count cs' <= max_files)
    /\ Forall (fun n => dcm_count cs < n <= dcm_count cs') (counter_values added).
Proof.
  revert cs st. induction fuel as [|fuel IH]; intros cs st H.
  - cbn [crawl_loop] in H.
    assert (Hdone : (o, cs', st') = (Completed, cs, st) \/ (o, cs', st') = (OutOfFuel, cs, st)).
    { destruct (links_to_visit cs); [now left|].
      destruct (negb _); [left | right]; congruence. }
    assert (cs' = cs /\ st' = st) as [-> ->] by (destruct Hdone; split; congruence).
    apply crawl_log_nothing.
  - cbn [crawl_loop] in H.
    destruct (links_to_visit cs) as [|current_url rest] eqn:Hstack.
    { injection H as <- <- <-. apply crawl_log_nothing. }
    destruct (Z.ltb_spec (dcm_count cs) max_files) as [Hlt|Hge]; cbn [negb] in H.
    2:{ injection H as <- <- <-. apply crawl_log_nothing. }
    destruct (bool_decide (current_url ∈ visited cs)) eqn:Hvis.
    { apply IH in H as (added & El & Hnd & Hnew & Hv & Hle & Hmax & Hcv).
      exists added. cbn [visited dcm_count] in *. auto 10. }
    apply bool_decide_eq_false in Hvis.
    destruct (visit_directory w save_dir max_files current_url (dcm_count cs) rest st)
      as [[[c stack']|e] st1] eqn:Hvd.
    2:{ apply (visit_directory_inv (fun _ => True)) in Hvd as (added & El & Hq & _ & ->);
          [|auto..].
        injection H as <- <- <-. exists [EvGet current_url false].
        split; [exact El|]. cbn [listing_fetches flat_map app visited dcm_count].
        split; [apply NoDup_singleton|].
        split; [intros u [<- | []]; exact Hvis|].
        split; [|split; [lia|split; [lia|constructor]]].
        intros u. rewrite elem_of_union, elem_of_singleton. simpl. intuition. }
    apply (visit_directory_inv (fun _ => True)) in Hvd
      as (added & El & Hq & _ & soup & futs & Hl & -> & HF & Hcv & Hle & Hmin & _);
      [|auto..].
    assert (Hcmax : c <= max_files) by (rewrite Hmin by assumption; lia).
    assert (Hf1 : listing_fetches (EvGet current_url false :: added) = [current_url]).
    { unfold listing_fetches in *. cbn [flat_map]. now rewrite Hq. }
    assert (Hc1 : counter_values (EvGet current_url false :: added) = counter_values added)
      by reflexivity.
    destruct (Z.geb_spec c max_files) as [Hfull|Hroom].
    { injection H as <- <- <-. exists (EvGet current_url false :: added).
      split; [exact El|]. rewrite Hf1, Hc1. cbn [visited dcm_count].
      split; [apply NoDup_singleton|].
      split; [intros u [<- | []]; exact Hvis|].
      split; [|split; [lia|split; [lia|exact Hcv]]].
      intros u. rewrite elem_of_union, elem_of_singleton. simpl. intuition. }
    apply IH in H as (added2 & El2 & Hnd & Hnew & Hv & Hle2 & Hmax2 & Hcv2).
    cbn [visited dcm_count] in *.
    exists ((EvGet current_url false :: added) ++ added2)%list.
    rewrite El2, El, <- app_assoc. split; [reflexivity|].
    rewrite listing_fetches_app, counter_values_app, Hf1, Hc1. cbn [app].
    split; [|split; [|split; [|split; [lia|split; [lia|]]]]].
    + apply NoDup_cons. split; [|exact Hnd].
      rewrite list_elem_of_In. intros Hin. apply (Hnew _ Hin).
      apply elem_of_union_l, elem_of_singleton. reflexivity.
    + intros u [<- | Hin]; [exact Hvis|].
      intros Hu. apply (Hnew _ Hin). now apply elem_of_union_r.
    + intros u. rewrite Hv, elem_of_union, elem_of_singleton. simpl. intuition.
    + apply Forall_app. split.
      * eapply List.Forall_impl; [|exact Hcv]. cbn beta. lia.
      * eapply List.Forall_impl; [|exact Hcv2]. cbn beta. lia.
Qed.

(* ===================================================================== *)
(** ** C6: every directory is listed at most once *)
(* ===================================================================== *)

(** C6: whatever the site, the budget and the number of iterations, and
    however the run ends (also by an exception): the listings requested
    during the crawl are pairwise distinct, and they are exactly the
    locations in [visited] (a location is in [visited] as soon as its
    listing is requested, even when that request fails).  The link loop
    pushes the targets of the hrefs that end in a slash, except the
    empty href and ["../"]: an anchor with href ["../"] changes
    nothing. *)
Theorem each_directory_fetched_once (w : World) (start_url save_dir : string)
  (max_files : Z) (fuel : nat) (st : state) :
  (let '(o, cs, st') := crawl_and_convert_dicom w start_url save_dir max_files fuel st in
   exists added,
     log st' = (log st ++ added)%list
     /\ NoDup (listing_fetches added)
     /\ forall u, u ∈ visited cs <-> In u (listing_fetches added))
  /\ (forall current_url links stack,
        fst (scan_links w current_url save_dir links stack)
        = (rev (map (urljoin w current_url)
                    (List.filter wanted_dir (map href_of links))) ++ stack)%list)
  /\ wanted_dir "../" = false
  /\ (forall current_url link links stack,
        a_href link = Some "../" ->
        scan_links w current_url save_dir (link :: links) stack
        = scan_links w current_url save_dir links stack).
Proof.
  split; [|split; [|split]].
  - destruct (crawl_and_convert_dicom w start_url save_dir max_files fuel st)
      as [[o cs] st'] eqn:H.
    unfold crawl_and_convert_dicom in H.
    apply crawl_loop_log in H as (added & El & Hnd & _ & Hv & _).
    exists added. split; [exact El|]. split; [exact Hnd|].
    intros u. rewrite Hv. cbn [visited]. rewrite elem_of_empty. tauto.
  - intros current_url links stack. now rewrite scan_links_spec.
  - reflexivity.
  - intros current_url link links stack Hh. cbn [scan_links]. now rewrite Hh.
Qed.

Example crawl_revisits_nothing :
  let '(o, cs, st') :=
    crawl_and_convert_dicom Demo.world Demo.root "/content/Dataset" 5 10 Demo.empty_state in
  listing_fetches (log st')
  = [Demo.root; (Demo.root ++ "p11/")%string; (Demo.root ++ "p10/")%string].
Proof. vm_compute. reflexivity. Qed.

(* ===================================================================== *)
(** ** The budget: bound, completeness, termination *)
(* ===================================================================== *)

Lemma dcm_tasks_shape w d save_dir soup t :
  In t (dcm_tasks w d save_dir soup) -> t = task_of save_dir (t_url t).
Proof.
  unfold dcm_tasks. intros H. apply in_map_iff in H as (h & <- & _). reflexivity.
Qed.

Lemma counted_spec w save_dir (R : state -> Prop) tasks futs :
  Forall2 (fun t fut => exists s, R s /\
             fst (download_and_convert w (t_url t) (t_dcm t) (t_jpg t) s) = fut)
          tasks futs ->
  length (counted tasks futs) = successes futs
  /\ forall url,
       In (task_of save_dir url) tasks ->
       (forall s, R s ->
          fst (download_and_convert w url (dcm_local_path save_dir url)
                 (jpg_local_path (dcm_local_path save_dir url)) s) = Ok true) ->
       In url (counted tasks futs).
Proof.
  induction 1 as [|t fut tasks futs (s & Hs & Hrun) _ [IHl IHin]].
  - split; [reflexivity|]. intros url [].
  - split.
    + unfold successes in *. destruct fut as [[]|]; cbn [counted List.filter length];
        now rewrite IHl.
    + intros url [Ht | Hin] Hok.
      * subst t. cbn [t_url t_dcm t_jpg task_of] in Hrun.
        rewrite (Hok s Hs) in Hrun. subst fut. now left.
      * specialize (IHin url Hin Hok).
        destruct fut as [[]|]; cbn [counted]; auto. now right.
Qed.

Section Budget.
Context (w : World) (start_url save_dir : string) (max_files : Z) (st0 : state).

Local Abbreviation R := (crawl_reaches w start_url save_dir st0).
Local Abbreviation Inv := (crawl_inv w start_url save_dir st0).

Lemma crawl_inv_skip count current_url rest seen done :
  current_url ∈ seen ->
  Inv (mkCrawl count (current_url :: rest) seen) done ->
  Inv (mkCrawl count rest seen) done.
Proof.
  intros Hseen (Hs & Hr & Hc). cbn [visited links_to_visit] in *.
  split; [|split].
  - destruct Hs as [Hs | [<- | Hs]]; auto.
  - intros u [Hu | Hu]; apply Hr; auto. right. now right.
  - intros d soup Hd Hl. destruct (Hc d soup Hd Hl) as [Hdir Hfile].
    split; [|exact Hfile].
    intros u Hu. destruct (Hdir u Hu) as [? | [<- | ?]]; auto.
Qed.

Lemma crawl_inv_visit count c current_url rest seen done soup tasks_done :
  listing w current_url = Some soup ->
  (forall url, In (task_of save_dir url) (dcm_tasks w current_url save_dir soup) ->
               convertible_file w start_url save_dir st0 url -> In url tasks_done) ->
  Inv (mkCrawl count (current_url :: rest) seen) done ->
  Inv (mkCrawl c (rev (dir_links w current_url soup) ++ rest)%list
               ({[current_url]} ∪ seen))
      (done ++ tasks_done)%list.
Proof.
  intros Hl Hnew (Hs & Hr & Hc). cbn [visited links_to_visit] in *.
  assert (Hcur : reachable w start_url current_url) by (apply Hr; right; now left).
  split; [|split].
  - destruct Hs as [Hs | [<- | Hs]].
    + left. now apply elem_of_union_r.
    + left. apply elem_of_union_l, elem_of_singleton. reflexivity.
    + right. apply in_or_app. now right.
  - intros u [Hu | Hu].
    + apply elem_of_union in Hu as [Hu | Hu].
      * apply elem_of_singleton in Hu. now subst.
      * apply Hr. now left.
    + apply in_app_or in Hu as [Hu | Hu].
      * apply in_rev in Hu. eapply reach_link; eauto.
      * apply Hr. right. now right.
  - intros d soup' Hd Hl'. apply elem_of_union in Hd as [Hd | Hd].
    + apply elem_of_singleton in Hd. subst d.
      assert (soup' = soup) by congruence. subst soup'. split.
      * intros u Hu. right. apply in_or_app. left. now apply in_rev in Hu.
      * intros url Hin Hconv. apply in_or_app. right. now apply Hnew.
    + destruct (Hc d soup' Hd Hl') as [Hdir Hfile]. split.
      * intros u Hu. destruct (Hdir u Hu) as [? | [<- | ?]].
        -- left. now apply elem_of_union_r.
        -- left. apply elem_of_union_l, elem_of_singleton. reflexivity.
        -- right. apply in_or_app. now right.
      * intros url Hin Hconv. apply in_or_app. left. now apply Hfile.
Qed.

(** When the loop ends by itself, either the budget is used up or
    every directory reachable from the start was visited and every
    convertible file counted. *)
Lemma crawl_loop_complete fuel :
  fair_pool w ->
  forall cs st done cs' st',
    R st -> Inv cs done ->
    dcm_count cs = Z.of_nat (length done) ->
    crawl_loop w save_dir max_files fuel cs st = (Completed, cs', st') ->
    max_files <= dcm_count cs'
    \/ exists done', Inv cs' done' /\ links_to_visit cs' = []
                     /\ dcm_count cs' = Z.of_nat (length done').
Proof.
  intros Hfair. induction fuel as [|fuel IH]; intros cs st done cs' st' Hst Hinv Hcount H.
  - cbn [crawl_loop] in H. destruct (links_to_visit cs) eqn:Hstack.
    + injection H as <- <-. right. eauto.
    + destruct (Z.ltb_spec (dcm_count cs) max_files); cbn [negb] in H; [discriminate|].
      injection H as <- <-. now left.
  - cbn [crawl_loop] in H.
    destruct cs as [count stack seen]. cbn [links_to_visit dcm_count visited] in *.
    destruct stack as [|current_url rest].
    { injection H as <- <-. right. eauto. }
    destruct (Z.ltb_spec count max_files) as [Hlt|Hge]; cbn [negb] in H.
    2:{ injection H as <- <-. now left. }
    destruct (bool_decide (current_url ∈ seen)) eqn:Hvis.
    { apply bool_decide_eq_true in Hvis.
      eapply IH in H; eauto. now apply crawl_inv_skip with current_url. }
    apply bool_decide_eq_false in Hvis.
    assert (Hcur : reachable w start_url current_url).
    { destruct Hinv as (_ & Hr & _). apply Hr. right. now left. }
    destruct (visit_directory w save_dir max_files current_url count rest st)
      as [[[c stack']|e] st1] eqn:Hvd; [|discriminate].
    apply (visit_directory_inv R) in Hvd
      as (added & El & Hq & Hst1 & soup & futs & Hl & -> & HF & Hcv & Hle & Hmin & _);
      [ | intros; eapply reaches_log; eauto
        | intros soup t Hl Ht s Hs; apply reaches_unit; [exact Hs|];
          exists current_url, soup; auto
        | exact Hst ].
    destruct (Z.geb_spec c max_files) as [Hfull|Hroom].
    { injection H as <- <-. left. cbn [dcm_count]. lia. }
    destruct (counted_spec w save_dir R _ _ HF) as [Hlen Hin].
    eapply IH in H; [exact H | exact Hst1 | | ].
    + apply crawl_inv_visit with (count := count) (tasks_done := counted (dcm_tasks w current_url save_dir soup) futs);
        [exact Hl | | exact Hinv].
      intros url Hurl [_ Hconv]. apply Hin; [exact Hurl|exact Hconv].
    + cbn [dcm_count]. rewrite length_app, Hlen.
      rewrite (successes_perm _ _ (Hfair _ futs)) in Hmin. lia.
Qed.

Lemma crawl_inv_closed cs done d :
  Inv cs done -> links_to_visit cs = [] -> reachable w start_url d -> d ∈ visited cs.
Proof.
  intros (Hs & _ & Hc) Hnil. rewrite Hnil in *.
  induction 1 as [|d soup u _ IHd Hl Hu].
  - destruct Hs as [? | []]; auto.
  - destruct (Hc d soup IHd Hl) as [Hdir _]. destruct (Hdir u Hu) as [? | []]; auto.
Qed.

Lemma pending_visit site seen d :
  In d site -> d ∉ seen ->
  (pending w site ({[d]} ∪ seen) + weight w d <= pending w site seen)%nat.
Proof.
  intros Hin Hd. induction site as [|x site IH]; [destruct Hin|].
  cbn [pending].
  assert (Hmono : forall l, (pending w l ({[d]} ∪ seen) <= pending w l seen)%nat).
  { induction l as [|y l IHl]; cbn [pending]; [lia|].
    destruct (bool_decide (y ∈ seen)) eqn:E1.
    - apply bool_decide_eq_true in E1.
      rewrite bool_decide_eq_true_2 by (now apply elem_of_union_r). lia.
    - destruct (bool_decide (y ∈ {[d]} ∪ seen)); lia. }
  destruct (decide (x = d)) as [->|Hne].
  - rewrite bool_decide_eq_true_2 by (apply elem_of_union_l, elem_of_singleton; reflexivity).
    rewrite bool_decide_eq_false_2 by assumption.
    specialize (Hmono site). lia.
  - destruct Hin as [Hx | Hin]; [congruence|]. specialize (IH Hin).
    destruct (bool_decide (x ∈ seen)) eqn:E1.
    + apply bool_decide_eq_true in E1.
      rewrite bool_decide_eq_true_2 by (now apply elem_of_union_r). lia.
    + apply bool_decide_eq_false in E1.
      rewrite bool_decide_eq_false_2; [lia|].
      intros Hx. apply elem_of_union in Hx as [Hx | Hx]; [|contradiction].
      apply elem_of_singleton in Hx. contradiction.
Qed.

(** On a finite site the loop ends by itself, or by an exception,
    within a number of iterations bounded by the size of the site. *)
Lemma crawl_loop_ends site fuel :
  closed_site w site ->
  forall cs st,
    (forall u, In u (links_to_visit cs) -> In u site) ->
    (length (links_to_visit cs) + pending w site (visited cs) <= fuel)%nat ->
    fst (fst (crawl_loop w save_dir max_files fuel cs st)) <> OutOfFuel.
Proof.
  intros Hclosed. induction fuel as [|fuel IH]; intros cs st Hsub Hfuel.
  - cbn [crawl_loop]. destruct (links_to_visit cs); [discriminate|].
    cbn [length] in Hfuel. lia.
  - cbn [crawl_loop]. destruct cs as [count stack seen].
    cbn [links_to_visit dcm_count visited] in *.
    destruct stack as [|current_url rest]; [discriminate|].
    destruct (negb (count <? max_files)); [discriminate|].
    cbn [length] in Hfuel.
    destruct (bool_decide (current_url ∈ seen)) eqn:Hvis.
    { apply IH; cbn [links_to_visit visited]; [|lia]. intros u Hu. apply Hsub. now right. }
    apply bool_decide_eq_false in Hvis.
    destruct (visit_directory w save_dir max_files current_url count rest st)
      as [[[c stack']|e] st1] eqn:Hvd; [|discriminate].
    apply (visit_directory_inv (fun _ => True)) in Hvd
      as (added & El & Hq & _ & soup & futs & Hl & -> & _); [|auto..].
    destruct (c >=? max_files); [discriminate|].
    assert (Hcur : In current_url site) by (apply Hsub; now left).
    pose proof (pending_visit site seen current_url Hcur Hvis) as Hp.
    unfold weight in Hp. rewrite Hl in Hp.
    apply IH; cbn [links_to_visit visited].
    + intros u Hu. apply in_app_or in Hu as [Hu | Hu].
      * apply in_rev in Hu. eapply Hclosed; eauto.
      * apply Hsub. now right.
    + rewrite length_app, length_rev. lia.
Qed.

End Budget.

(* ===================================================================== *)
(** ** C1: the budget *)
(* ===================================================================== *)

(** C1, as stated, is false for a negative [max_files] (the script
    reads it with [int(input(...))] and accepts it): the loop is never
    entered and the counter, 0, exceeds the budget. *)
Lemma negative_budget_is_exceeded :
  let '(o, cs, st') :=
    crawl_and_convert_dicom Demo.world Demo.root "/content/Dataset" (-1) 10
                            Demo.empty_state in
  o = Completed /\ ~ (dcm_count cs <= -1).
Proof. vm_compute. split; [reflexivity|]. intros H. now apply H. Qed.

(** C1 (amended): for a budget [max_files >= 0],
    - the counter never exceeds the budget: not in the end, however the
      run ends, and not in any of the values printed on the way;
    - when the function returns and the crawl tree holds at least
      [max_files] distinct convertible files, the counter equals the
      budget (futures being completed once each);
    - on a finite site the loop ends, by itself or by an exception,
      within the number of iterations given by the size of the site. *)
Theorem budget_invariant (w : World) (start_url save_dir : string)
  (max_files : Z) (fuel : nat) (st : state) :
  0 <= max_files ->
  let '(o, cs, st') := crawl_and_convert_dicom w start_url save_dir max_files fuel st in
  dcm_count cs <= max_files
  /\ (exists added,
        log st' = (log st ++ added)%list
        /\ Forall (fun n => 0 < n <= max_files) (counter_values added))
  /\ (fair_pool w -> o = Completed ->
      forall urls,
        NoDup urls ->
        (forall url, In url urls -> convertible_file w start_url save_dir st url) ->
        max_files <= Z.of_nat (length urls) ->
        dcm_count cs = max_files)
  /\ (forall site,
        closed_site w site -> In start_url site ->
        (S (pending w site ∅) <= fuel)%nat ->
        o <> OutOfFuel).
Proof.
  intros Hmax.
  destruct (crawl_and_convert_dicom w start_url save_dir max_files fuel st)
    as [[o cs] st'] eqn:H.
  unfold crawl_and_convert_dicom in H.
  pose proof (crawl_loop_log _ _ _ _ _ _ _ _ _ H)
    as (added & El & _ & _ & _ & Hle & Hbound & Hcv).
  cbn [dcm_count] in *. specialize (Hbound Hmax).
  split; [exact Hbound|]. split; [|split].
  - exists added. split; [exact El|].
    eapply List.Forall_impl; [|exact Hcv]. cbn beta. lia.
  - intros Hfair -> urls Hnd Hconv Hlen.
    eapply (crawl_loop_complete w start_url save_dir max_files st fuel Hfair _ _ [])
      in H as [Hfull | (done' & Hinv & Hnil & Hcount)].
    + lia.
    + assert (Hincl : incl urls done').
      { intros url Hurl. destruct (Hconv url Hurl) as [(d & soup & Hd & Hl & Ht) Hok].
        destruct Hinv as (Hs & Hr & Hc).
        assert (Hv : d ∈ visited cs).
        { eapply crawl_inv_closed; eauto. split; [exact Hs|]. split; [exact Hr|exact Hc]. }
        destruct (Hc d soup Hv Hl) as [_ Hfile]. apply Hfile; [exact Ht|].
        split; [|exact Hok]. exists d, soup. auto. }
      apply NoDup_ListNoDup in Hnd.
      pose proof (List.NoDup_incl_length Hnd Hincl). lia.
    + apply reaches_init.
    + split; [|split]; cbn [visited links_to_visit].
      * right. now left.
      * intros u [Hu | [<- | []]]; [|apply reach_start].
        now apply elem_of_empty in Hu.
      * intros d soup Hd. now apply elem_of_empty in Hd.
    + reflexivity.
  - intros site Hclosed Hstart Hfuel ->.
    pose proof (crawl_loop_ends w save_dir max_files site fuel Hclosed
                  (mkCrawl 0 [start_url] ∅) st) as Hends.
    rewrite H in Hends. apply Hends; cbn [links_to_visit visited length fst]; auto.
    intros u [<- | []]. exact Hstart.
Qed.

(** *** The demo site satisfies the hypotheses *)

Lemma demo_listings d soup :
  In d DemoSite.site -> listing DemoSite.world d = Some soup ->
  (forall u, In u (dir_links DemoSite.world d soup) -> In u DemoSite.site)
  /\ (forall t, In t (dcm_tasks DemoSite.world d DemoSite.save_dir soup) -> In t DemoSite.tasks).
Proof.
  intros Hd Hl. simpl in Hd.
  destruct Hd as [<- | [<- | [<- | []]]];
    vm_compute in Hl; injection Hl as <-; split; intros x Hx;
    vm_compute in Hx; vm_compute; tauto.
Qed.

Lemma demo_reachable d : reachable DemoSite.world Demo.root d -> In d DemoSite.site.
Proof.
  induction 1 as [|d soup u _ IH Hl Hu]; [now left|].
  now apply (demo_listings d soup IH Hl).
Qed.

Lemma demo_in_tree t :
  in_tree DemoSite.world Demo.root DemoSite.save_dir t -> In t DemoSite.tasks.
Proof.
  intros (d & soup & Hd & Hl & Ht).
  now apply (demo_listings d soup (demo_reachable d Hd) Hl).
Qed.

Lemma demo_closed : closed_site DemoSite.world DemoSite.site.
Proof. intros d soup u Hd Hl Hu. now apply (demo_listings d soup Hd Hl). Qed.

Lemma demo_fair : fair_pool DemoSite.world.
Proof. intros A l. symmetry. apply Permutation_rev. Qed.

(** Whatever units have run, the file system is one of [fs_states]. *)
Lemma demo_units_closed l :
  List.Forall
    (fun s => List.Forall
                (fun t => DemoSite.fs_of (DemoSite.run_unit t (mkState (fst s) (snd s) l))
                          ∈ DemoSite.fs_states)
                DemoSite.tasks)
    DemoSite.fs_states.
Proof.
  unfold DemoSite.fs_states, DemoSite.tasks. cbn [map].
  repeat (apply List.Forall_cons;
          [repeat (apply List.Forall_cons;
                   [apply (bool_decide_unpack _); vm_compute; exact I|]);
           apply List.Forall_nil |]).
  apply List.Forall_nil.
Qed.

Lemma demo_unit_closed t F D l :
  In t DemoSite.tasks -> In (F, D) DemoSite.fs_states ->
  In (DemoSite.fs_of (DemoSite.run_unit t (mkState F D l))) DemoSite.fs_states.
Proof.
  intros Ht Hs. apply list_elem_of_In.
  pose proof (demo_units_closed l) as H.
  rewrite List.Forall_forall in H. specialize (H _ Hs).
  rewrite List.Forall_forall in H. exact (H _ Ht).
Qed.

(** In each of them the unit of [a.dcm] returns [True]. *)
Lemma demo_a_runs l :
  List.Forall
    (fun s => fst (download_and_convert DemoSite.world DemoSite.a_url
                     (dcm_local_path DemoSite.save_dir DemoSite.a_url)
                     (jpg_local_path (dcm_local_path DemoSite.save_dir DemoSite.a_url))
                     (mkState (fst s) (snd s) l)) = Ok true)
    DemoSite.fs_states.
Proof.
  unfold DemoSite.fs_states. cbn [map].
  repeat (apply List.Forall_cons; [vm_compute; reflexivity|]).
  apply List.Forall_nil.
Qed.

Lemma demo_fs st :
  crawl_reaches DemoSite.world Demo.root DemoSite.save_dir Demo.empty_state st ->
  In (DemoSite.fs_of st) DemoSite.fs_states.
Proof.
  induction 1 as [|st st' _ IH Hf Hd|st t _ IH Ht].
  - now left.
  - unfold DemoSite.fs_of in *. now rewrite Hf, Hd.
  - destruct st as [F D l]. apply demo_unit_closed; [now apply demo_in_tree | exact IH].
Qed.

Lemma demo_a_convertible :
  convertible_file DemoSite.world Demo.root DemoSite.save_dir Demo.empty_state DemoSite.a_url.
Proof.
  split.
  - exists DemoSite.p10, (Demo.anchors_of [x02]). split; [|split].
    + apply (reach_link _ _ Demo.root (Demo.anchors_of [x01])).
      * apply reach_start.
      * reflexivity.
      * vm_compute. tauto.
    + reflexivity.
    + vm_compute. tauto.
  - intros st Hst. apply demo_fs in Hst. destruct st as [F D l].
    pose proof (demo_a_runs l) as H. rewrite List.Forall_forall in H.
    exact (H _ Hst).
Qed.

Lemma budget_invariant_witness :
  let '(o, cs, st') :=
    crawl_and_convert_dicom DemoSite.world Demo.root DemoSite.save_dir 1 10 Demo.empty_state in
  dcm_count cs <= 1 /\ dcm_count cs = 1 /\ o <> OutOfFuel.
Proof.
  pose proof (budget_invariant DemoSite.world Demo.root DemoSite.save_dir 1 10
                Demo.empty_state ltac:(lia)) as H.
  destruct (crawl_and_convert_dicom DemoSite.world Demo.root DemoSite.save_dir 1 10
              Demo.empty_state) as [[o cs] st'] eqn:E.
  destruct H as (Hle & _ & Heq & Hends).
  assert (Ho : o <> OutOfFuel).
  { apply (Hends DemoSite.site demo_closed); [now left|]. vm_compute. lia. }
  split; [exact Hle|]. split; [|exact Ho].
  apply (Heq demo_fair) with (urls := [DemoSite.a_url]).
  - assert (o = fst (fst (crawl_and_convert_dicom DemoSite.world Demo.root DemoSite.save_dir 1 10
              Demo.empty_state))) as -> by (now rewrite E).
    vm_compute. reflexivity.
  - apply NoDup_singleton.
  - intros url [<- | []]. exact demo_a_convertible.
  - simpl. lia.
Defined.

(* ===================================================================== *)
(** ** Further properties of the path derivation *)
(* ===================================================================== *)

Lemma lstrip_slash_no_slash s : Py.startswith (Py.lstrip_slash s) "/" = false.
Proof.
  induction s as [|c s IH]; [reflexivity|].
  destruct (Ascii.eqb_spec c "/"%char) as [->|Hne].
  - exact IH.
  - assert (Py.lstrip_slash (String c s) = String c s) as ->.
    { destruct c as [[] [] [] [] [] [] [] []]; try reflexivity. now contradict Hne. }
    unfold Py.startswith. cbn [Py.strip_prefix].
    destruct (Ascii.eqb_spec "/"%char c) as [<-|_]; [now contradict Hne|reflexivity].
Qed.

Lemma basename_no_slash p :
  existsb (Ascii.eqb "/") (list_ascii_of_string (Py.basename p)) = false.
Proof.
  induction p as [|c p IH]; [reflexivity|].
  cbn [Py.basename]. destruct (Ascii.eqb_spec c "/"%char) as [->|Hne]; [exact IH|].
  destruct (existsb (Ascii.eqb "/") (list_ascii_of_string p)) eqn:E; [exact IH|].
  cbn [list_ascii_of_string existsb]. rewrite E.
  destruct (Ascii.eqb_spec "/"%char c) as [<-|_]; [now contradict Hne|reflexivity].
Qed.

Lemma no_slash_not_absolute s :
  existsb (Ascii.eqb "/") (list_ascii_of_string s) = false -> Py.startswith s "/" = false.
Proof.
  destruct s as [|c s]; [reflexivity|].
  cbn [list_ascii_of_string existsb]. unfold Py.startswith. cbn [Py.strip_prefix].
  destruct (Ascii.eqb "/" c); [discriminate|reflexivity].
Qed.

(** The relative path is never absolute, whatever the URL: so
    [os.path.join] never drops [save_dir], and the local path is
    [save_dir], a separator when [save_dir] has none, and the relative
    path. *)
Theorem local_path_stays_under_save_dir (save_dir full_url : string) :
  Py.startswith (relative_local_path full_url) "/" = false
  /\ exists sep,
       (sep = EmptyString \/ sep = "/")
       /\ dcm_local_path save_dir full_url
          = (save_dir ++ sep ++ relative_local_path full_url)%string.
Proof.
  assert (H : Py.startswith (relative_local_path full_url) "/" = false).
  { unfold relative_local_path.
    destruct (Py.split_once split_key full_url) as [[pre tail]|].
    - apply lstrip_slash_no_slash.
    - apply no_slash_not_absolute, basename_no_slash. }
  split; [exact H|].
  unfold dcm_local_path, Py.join. rewrite H.
  destruct (String.eqb save_dir EmptyString || Py.endswith save_dir "/").
  - exists EmptyString. split; [now left|]. now rewrite append_nil_l.
  - exists "/". split; [now right|reflexivity].
Qed.

Lemma string_length_app (a b : string) :
  String.length (a ++ b)%string = (String.length a + String.length b)%nat.
Proof. induction a as [|c a IH]; [reflexivity|]. rewrite append_cons. simpl. now rewrite IH. Qed.

Lemma take_app_exact (a b : string) : Py.take (String.length a) (a ++ b)%string = a.
Proof.
  induction a as [|c a IH]; [now destruct b|].
  rewrite append_cons. simpl. now rewrite IH.
Qed.

(** The JPEG path replaces the last four characters of the DICOM path,
    whatever they are: paths that differ only in their last four
    characters (as [x.dcm] and [x.DCM], both of which the crawl
    schedules) share one JPEG path; a path shorter than four characters
    gives [.jpg]. *)
Theorem jpg_path_replaces_last_four (stem ext : string) :
  String.length ext = 4%nat ->
  jpg_local_path (stem ++ ext) = (stem ++ ".jpg")%string
  /\ (forall ext', String.length ext' = 4%nat ->
        jpg_local_path (stem ++ ext') = jpg_local_path (stem ++ ext))
  /\ (ext <> ".jpg" -> jpg_local_path (stem ++ ext) <> (stem ++ ext)%string).
Proof.
  intros Hlen.
  assert (Hjpg : forall e, String.length e = 4%nat ->
                           jpg_local_path (stem ++ e) = (stem ++ ".jpg")%string).
  { intros e He. unfold jpg_local_path, Py.drop_last.
    rewrite string_length_app, He.
    replace (String.length stem + 4 - 4)%nat with (String.length stem) by lia.
    now rewrite take_app_exact. }
  split; [now apply Hjpg|]. split.
  - intros ext' He'. now rewrite !Hjpg.
  - intros Hne. rewrite Hjpg by assumption. intros Heq.
    apply append_cancel_l in Heq. congruence.
Qed.

Lemma jpg_path_replaces_last_four_witness :
  jpg_local_path ("/content/Dataset/files/p10/a" ++ ".DCM")
  = ("/content/Dataset/files/p10/a" ++ ".jpg")%string
  /\ jpg_local_path ("/content/Dataset/files/p10/a" ++ ".dcm")
     = jpg_local_path ("/content/Dataset/files/p10/a" ++ ".DCM").
Proof.
  destruct (jpg_path_replaces_last_four "/content/Dataset/files/p10/a" ".DCM" eq_refl)
    as (H1 & H2 & _).
  split; [exact H1|]. apply H2. reflexivity.
Defined.

(* ===================================================================== *)
(** ** [download_file]: what ends up on disk *)
(* ===================================================================== *)

Lemma write_chunks_inv path cs size st old :
  files st !! path = Some old ->
  exists st',
    write_chunks path cs size st
    = (Ok (size + Z.of_nat (length (concat cs))), st')
    /\ files st' !! path = Some (old ++ concat cs)%list
    /\ (forall p, p <> path -> files st' !! p = files st !! p)
    /\ dirs st' = dirs st.
Proof.
  revert size st old. induction cs as [|chunk cs IH]; intros size st old Hold.
  - exists st. cbn [write_chunks concat length ret]. rewrite Z.add_0_r, app_nil_r. auto.
  - cbn [write_chunks concat]. destruct chunk as [|b chunk].
    + cbn [app]. apply IH. exact Hold.
    + unfold bind. rewrite write_inv.
      set (st1 := mkState _ _ _).
      destruct (IH (size + Z.of_nat (length (b :: chunk))) st1 (old ++ b :: chunk)%list)
        as (st' & E & Hp & Hother & Hd).
      { subst st1. cbn [files]. rewrite Hold. cbn [default]. apply lookup_insert_eq. }
      exists st'. rewrite E. split.
      * f_equal. f_equal. rewrite length_app. lia.
      * split; [now rewrite Hp, <- app_assoc|]. split; [|exact Hd].
        intros p Hne. rewrite (Hother p Hne). subst st1. cbn [files].
        now rewrite lookup_insert_ne by congruence.
Qed.

(** When the directory can be made, the server answers without an error
    status and the destination can be opened, the destination holds
    exactly the bytes received, in place of whatever it held, and no
    other file changes.  With an intact stream the size returned is the
    length of the file; with a stream that breaks, [download_file]
    raises and the partial file stays on disk. *)
Theorem download_file_writes_body (w : World) (file_url local_path : string)
  (st st1 st2 : state) (r : response) :
  makedirs w (Py.dirname local_path) st = (Ok tt, st1) ->
  http w file_url = Some r ->
  is_error_status (status_code r) = false ->
  open_wb w local_path (emit (EvGet file_url true) st1) = (Ok tt, st2) ->
  exists st',
    download_file w file_url local_path st
    = (if stream_ok r
       then Ok (local_path, Z.of_nat (length (concat (chunks r))))
       else Raise ConnectionError, st')
    /\ files st' !! local_path = Some (concat (chunks r))
    /\ (forall p, p <> local_path -> files st' !! p = files st !! p).
Proof.
  intros Hmk Hhttp Hstatus Hop.
  unfold download_file. unfold bind at 1. rewrite Hmk.
  unfold bind at 1. unfold session_get. rewrite Hhttp. cbn [negb andb].
  unfold bind at 1. unfold raise_for_status. rewrite Hstatus. unfold ret at 1.
  unfold bind at 1. rewrite Hop.
  apply makedirs_inv in Hmk as (Hf1 & _ & _).
  apply open_wb_inv in Hop as (_ & [(_ & Hf2 & _) | ((e & He) & _)]); [|discriminate].
  cbn [files emit] in Hf2.
  destruct (write_chunks_inv local_path (chunks r) 0 st2 [])
    as (st3 & E & Hp & Hother & _).
  { rewrite Hf2. apply lookup_insert_eq. }
  unfold bind. rewrite E. cbn [app] in Hp. rewrite Z.add_0_l.
  exists st3. split; [now destruct (stream_ok r)|]. split; [exact Hp|].
  intros p Hne. rewrite (Hother p Hne), Hf2, lookup_insert_ne, Hf1 by congruence.
  reflexivity.
Qed.

Lemma download_file_writes_body_witness :
  (exists st',
      download_file Demo.world (Demo.root ++ "p10/a.dcm") "/d/a.dcm"
                    (Demo.one_file "/d/a.dcm" [x01])
      = (Ok ("/d/a.dcm", 3), st')
      /\ files st' !! "/d/a.dcm" = Some [x0a; x0a; x0a]
      /\ (forall p, p <> "/d/a.dcm" ->
                    files st' !! p = files (Demo.one_file "/d/a.dcm" [x01]) !! p))
  /\ (exists st',
        download_file Demo2.world_broken_stream (Demo.root ++ "p10/a.dcm") "/d/a.dcm"
                      Demo.empty_state
        = (Raise ConnectionError, st')
        /\ files st' !! "/d/a.dcm" = Some [x0a; x0a]
        /\ (forall p, p <> "/d/a.dcm" -> files st' !! p = files Demo.empty_state !! p)).
Proof.
  split.
  - eapply (download_file_writes_body Demo.world (Demo.root ++ "p10/a.dcm") "/d/a.dcm"
              (Demo.one_file "/d/a.dcm" [x01]) _ _
              (mkResponse 200 [[x0a; x0a]; []; [x0a]] true)); reflexivity.
  - eapply (download_file_writes_body Demo2.world_broken_stream (Demo.root ++ "p10/a.dcm")
              "/d/a.dcm" Demo.empty_state _ _
              (mkResponse 200 [[x0a]; [x0a]] false)); reflexivity.
Defined.

(* ===================================================================== *)
(** ** [download_and_convert]: isolation of one unit *)
(* ===================================================================== *)

(** No exception leaves [download_and_convert].  When the download
    raises, the answer is [False] and the conversion is not attempted;
    otherwise the answer is [True] exactly when [dicom_to_jpg] returns
    without raising. *)
Theorem download_and_convert_never_raises (w : World)
  (file_url dcm_path jpg_path : string) (st : state) :
  exists b st',
    download_and_convert w file_url dcm_path jpg_path st = (Ok b, st')
    /\ (forall e st1,
          download_file w file_url dcm_path st = (Raise e, st1) ->
          b = false /\ st' = emit (EvPrint (MsgFailedToDownload file_url e)) st1)
    /\ (forall r st1 res st2,
          download_file w file_url dcm_path st = (Ok r, st1) ->
          dicom_to_jpg w dcm_path jpg_path 1000000
                       (emit (EvPrint (MsgDownloaded dcm_path (snd r))) st1) = (res, st2) ->
          match res with
          | Ok _ => b = true /\ st' = st2
          | Raise ex => b = false /\ st' = emit (EvPrint (MsgFailedToConvert dcm_path ex)) st2
          end).
Proof.
  unfold download_and_convert. unfold bind at 1, try_except at 1. unfold bind at 1.
  destruct (download_file w file_url dcm_path st) as [[r|e] st1] eqn:Hdl.
  - unfold bind at 1, print at 1, ret at 1. cbn beta iota.
    unfold try_except, bind.
    destruct (dicom_to_jpg w dcm_path jpg_path 1000000 _) as [[[]|ex] st2] eqn:Hconv.
    + exists true, st2. split; [reflexivity|]. split; [discriminate|].
      intros r' st1' res st2' [= <- <-] Hc. rewrite Hconv in Hc.
      injection Hc as <- <-. auto.
    + exists false, (emit (EvPrint (MsgFailedToConvert dcm_path ex)) st2).
      split; [reflexivity|]. split; [discriminate|].
      intros r' st1' res st2' [= <- <-] Hc. rewrite Hconv in Hc.
      injection Hc as <- <-. auto.
  - unfold bind, print, ret. cbn beta iota.
    exists false, (emit (EvPrint (MsgFailedToDownload file_url e)) st1).
    split; [reflexivity|]. split; [|discriminate].
    intros e' st1' [= <- <-]. auto.
Qed.

(** An image without samples makes [arr.min()] raise: the unit answers
    [False], is not counted, and leaves the downloaded file as it is. *)
Theorem empty_image_is_not_counted (w : World) (file_url dcm_path jpg_path : string)
  (st st1 : state) (r : string * Z) (content : bytes) :
  download_file w file_url dcm_path st = (Ok r, st1) ->
  files st1 !! dcm_path = Some content ->
  dcmread w content = Some [] ->
  exists st',
    download_and_convert w file_url dcm_path jpg_path st = (Ok false, st')
    /\ files st' = files st1 /\ dirs st' = dirs st1
    /\ In (EvPrint (MsgFailedToConvert dcm_path ValueError)) (log st').
Proof.
  intros Hdl Hf Hd.
  unfold download_and_convert. unfold bind at 1. unfold try_except at 1.
  unfold bind at 1. rewrite Hdl. unfold bind at 1, print at 1, ret at 1.
  cbn beta iota. unfold try_except, bind.
  rewrite (dicom_to_jpg_decoded w dcm_path jpg_path 1000000
             (emit (EvPrint (MsgDownloaded dcm_path (snd r))) st1) content [] Hf Hd).
  unfold print, ret.
  exists (emit (EvPrint (MsgFailedToConvert dcm_path ValueError))
               (emit (EvPrint (MsgDownloaded dcm_path (snd r))) st1)).
  split; [reflexivity|]. cbn [files dirs log emit]. repeat split.
  apply in_or_app. right. now left.
Qed.

Lemma empty_image_is_not_counted_witness :
  exists st',
    download_and_convert Demo2.world_empty_image (Demo.root ++ "p10/a.dcm")
                         "/d/a.dcm" "/d/a.jpg" Demo.empty_state = (Ok false, st')
    /\ files st' = {[ "/d/a.dcm" := [x0a; x0a; x0a] ]}
    /\ dirs st' = {[ "/d" ]}
    /\ In (EvPrint (MsgFailedToConvert "/d/a.dcm" ValueError)) (log st').
Proof.
  apply (empty_image_is_not_counted Demo2.world_empty_image (Demo.root ++ "p10/a.dcm")
           "/d/a.dcm" "/d/a.jpg" Demo.empty_state
           (snd (download_file Demo2.world_empty_image (Demo.root ++ "p10/a.dcm")
                               "/d/a.dcm" Demo.empty_state))
           ("/d/a.dcm", 3) [x0a; x0a; x0a]).
  - vm_compute. reflexivity.
  - vm_compute. reflexivity.
  - reflexivity.
Defined.

(* ===================================================================== *)
(** ** More on archive extraction *)
(* ===================================================================== *)

(** A corrupt [.gz] archive still costs the file at the output path:
    the output is opened (created or truncated) before anything is
    decompressed, so after the failure it holds the part that could be
    decompressed, whatever it held before; the archive itself stays. *)
Theorem corrupt_gz_overwrites_output (w : World) (filepath : string)
  (st st1 : state) (content : bytes) :
  files st !! filepath = Some content ->
  snd (gunzip w content) = false ->
  open_wb w (Py.drop_last 3 filepath) st = (Ok tt, st1) ->
  exists st',
    extract_gz w filepath st = (Raise BadArchive, st')
    /\ files st' !! Py.drop_last 3 filepath = Some (fst (gunzip w content))
    /\ files st' !! filepath = Some content.
Proof.
  intros Hf Hbad Hop.
  unfold extract_gz. unfold bind at 1. unfold read_file. rewrite Hf.
  unfold bind at 1. rewrite Hop. unfold bind at 1. rewrite write_inv, Hbad.
  eexists. split; [reflexivity|]. cbn [files].
  apply open_wb_inv in Hop as (_ & [(_ & Hf1 & Hne) | ((e & He) & _)]); [|discriminate].
  apply drop_last_neq in Hne. split.
  - rewrite lookup_insert_eq, Hf1, lookup_insert_eq. reflexivity.
  - rewrite lookup_insert_ne, Hf1, lookup_insert_ne by assumption. exact Hf.
Qed.

Lemma corrupt_gz_overwrites_output_witness :
  exists st',
    extract_gz Demo.world_archives "/d/t.csv.gz"
               (mkState {[ "/d/t.csv.gz" := [x1f; x8b; x02]; "/d/t.csv" := [x6f; x6c; x64] ]}
                        ∅ [])
    = (Raise BadArchive, st')
    /\ files st' !! "/d/t.csv" = Some [x61]
    /\ files st' !! "/d/t.csv.gz" = Some [x1f; x8b; x02].
Proof.
  eapply (corrupt_gz_overwrites_output Demo.world_archives "/d/t.csv.gz"
            (mkState {[ "/d/t.csv.gz" := [x1f; x8b; x02]; "/d/t.csv" := [x6f; x6c; x64] ]}
                     ∅ [])
            _ [x1f; x8b; x02]).
  - vm_compute. reflexivity.
  - reflexivity.
  - reflexivity.
Defined.

(** A path no member is extracted to keeps what it holds. *)
Lemma extract_members_untouched w folder filepath members clobbered st r st' p :
  extract_members w folder filepath members clobbered st = (r, st') ->
  (forall m, In m members -> zm_is_dir m = false -> Py.join folder (zm_name m) <> p) ->
  files st' !! p = files st !! p.
Proof.
  revert clobbered st r st'.
  induction members as [|m members IH]; intros clobbered st r st' H Hne.
  - injection H as <- <-. reflexivity.
  - cbn [extract_members] in H. destruct clobbered; [now injection H as <- <-|].
    set (target := Py.join folder (zm_name m)) in *.
    unfold bind at 1 in H.
    destruct ((if String.eqb (Py.dirname target) EmptyString
               then ret tt else makedirs w (Py.dirname target)) st)
      as [[[]|e0] st0] eqn:Hup.
    2:{ injection H as <- <-. destruct (String.eqb _ _); [discriminate|].
        apply makedirs_inv in Hup as (-> & _). reflexivity. }
    assert (Hf0 : files st0 = files st).
    { destruct (String.eqb _ _); [now injection Hup as <-|].
      now apply makedirs_inv in Hup as (-> & _). }
    assert (Hrest : forall m', In m' members -> zm_is_dir m' = false ->
                               Py.join folder (zm_name m') <> p)
      by (intros; apply Hne; auto; now right).
    destruct (zm_is_dir m) eqn:Hdir.
    + unfold bind at 1 in H.
      destruct (makedirs w target st0) as [[[]|e1] st1] eqn:Hmk;
        apply makedirs_inv in Hmk as (Hf1 & _).
      * rewrite (IH _ _ _ _ H Hrest). congruence.
      * injection H as <- <-. congruence.
    + assert (Htp : target <> p) by (apply Hne; [now left|exact Hdir]).
      unfold bind at 1 in H.
      destruct (open_wb w target st0) as [[[]|e1] st1] eqn:Hop.
      2:{ apply open_wb_inv in Hop as (_ & [(Hr & _) | (_ & Hf1)]); [discriminate|].
          injection H as <- <-. congruence. }
      apply open_wb_inv in Hop as (_ & [(_ & Hf1 & _) | ((e & He) & _)]); [|discriminate].
      assert (Hp1 : files st1 !! p = files st !! p).
      { rewrite Hf1, lookup_insert_ne by assumption. now rewrite Hf0. }
      destruct (String.eqb target filepath).
      * destruct (zm_data m).
        -- rewrite (IH _ _ _ _ H Hrest). exact Hp1.
        -- injection H as <- <-. exact Hp1.
      * unfold bind at 1 in H. rewrite write_inv in H.
        set (st2 := mkState _ _ _) in H.
        assert (Hp2 : files st2 !! p = files st !! p).
        { subst st2. cbn [files]. now rewrite lookup_insert_ne by assumption. }
        destruct (zm_intact m).
        -- rewrite (IH _ _ _ _ H Hrest). exact Hp2.
        -- injection H as <- <-. exact Hp2.
Qed.

Lemma extract_members_content w folder filepath members st st' :
  extract_members w folder filepath members false st = (Ok tt, st') ->
  forall m, In m members -> zm_is_dir m = false ->
    Py.join folder (zm_name m) <> filepath ->
    (forall m', In m' members -> zm_is_dir m' = false ->
                Py.join folder (zm_name m') = Py.join folder (zm_name m) -> m' = m) ->
    NoDup members ->
    files st' !! Py.join folder (zm_name m) = Some (zm_data m).
Proof.
  revert st st'.
  induction members as [|m0 members IH]; intros st st' H m Hin Hfile Hnot Huniq Hnd;
    [destruct Hin|].
  apply NoDup_cons in Hnd as [Hfresh Hnd].
  cbn [extract_members] in H.
  unfold bind at 1 in H.
  destruct ((if String.eqb (Py.dirname (Py.join folder (zm_name m0))) EmptyString
             then ret tt else makedirs w (Py.dirname (Py.join folder (zm_name m0)))) st)
    as [[[]|e0] st0] eqn:Hup; [|discriminate].
  assert (Htail : forall m', In m' members -> zm_is_dir m' = false ->
            Py.join folder (zm_name m') = Py.join folder (zm_name m) -> m' = m)
    by (intros; apply Huniq; auto; now right).
  destruct Hin as [Heq | Hin].
  - (* the member itself: written now, not touched afterwards *)
    subst m0. rewrite Hfile in H. unfold bind at 1 in H.
    destruct (open_wb w (Py.join folder (zm_name m)) st0) as [[[]|e1] st1] eqn:Hop;
      [|discriminate].
    apply open_wb_inv in Hop as (_ & [(_ & Hf1 & _) | ((e & He) & _)]); [|discriminate].
    destruct (String.eqb_spec (Py.join folder (zm_name m)) filepath) as [Heq|_];
      [contradiction|].
    unfold bind at 1 in H. rewrite write_inv in H.
    set (st2 := mkState _ _ _) in H.
    destruct (zm_intact m); [|discriminate].
    rewrite (extract_members_untouched _ _ _ _ _ _ _ _ (Py.join folder (zm_name m)) H).
    + subst st2. cbn [files]. rewrite lookup_insert_eq, Hf1, lookup_insert_eq. reflexivity.
    + intros m' Hm' Hd' Heq. specialize (Huniq m' (or_intror Hm') Hd' Heq). subst m'.
      apply Hfresh. now apply list_elem_of_In.
  - (* a later member *)
    destruct (zm_is_dir m0) eqn:Hdir0.
    + unfold bind at 1 in H.
      destruct (makedirs w (Py.join folder (zm_name m0)) st0) as [[[]|e1] st1] eqn:Hmk;
        [|discriminate].
      eapply IH; eauto.
    + unfold bind at 1 in H.
      destruct (open_wb w (Py.join folder (zm_name m0)) st0) as [[[]|e1] st1] eqn:Hop;
        [|discriminate].
      destruct (String.eqb (Py.join folder (zm_name m0)) filepath).
      * destruct (zm_data m0); [|discriminate].
        destruct members; [destruct Hin|]. cbn [extract_members] in H. discriminate.
      * unfold bind at 1 in H. rewrite write_inv in H.
        destruct (zm_intact m0); [|discriminate].
        eapply IH; eauto.
Qed.

(** After a successful [.zip] extraction, a file member whose path no
    other file member shares and which is not the archive's own path
    holds exactly the member's data. *)
Theorem extracted_member_holds_its_data (w : World) (filepath : string)
  (st st' : state) (content : bytes) (members : list zip_member) (m : zip_member) :
  files st !! filepath = Some content ->
  zip_open w content = Some members ->
  extract_zip w filepath st = (Ok tt, st') ->
  NoDup members ->
  In m members -> zm_is_dir m = false ->
  Py.join (Py.dirname filepath) (zm_name m) <> filepath ->
  (forall m', In m' members -> zm_is_dir m' = false ->
     Py.join (Py.dirname filepath) (zm_name m')
     = Py.join (Py.dirname filepath) (zm_name m) -> m' = m) ->
  files st' !! Py.join (Py.dirname filepath) (zm_name m) = Some (zm_data m).
Proof.
  intros Hf Hz H Hnd Hin Hfile Hnot Huniq.
  unfold extract_zip in H. unfold bind at 1 in H. unfold read_file in H.
  rewrite Hf, Hz in H. unfold bind at 1 in H.
  destruct (extract_members w (Py.dirname filepath) filepath members false st)
    as [[[]|e] st1] eqn:Hem; [|discriminate].
  unfold bind at 1 in H.
  destruct (remove w filepath st1) as [[[]|e] st2] eqn:Hrm; [|discriminate].
  apply remove_inv in Hrm as (_ & [(_ & Hf2) | ((e & He) & _)]); [|discriminate].
  injection H as <-. cbn [files emit]. rewrite Hf2, lookup_delete_ne by congruence.
  eapply extract_members_content; eauto.
Qed.

Lemma extracted_member_holds_its_data_witness :
  files (snd (extract_zip Demo.world_archives "/d/data.zip"
                          (Demo.one_file "/d/data.zip" [x50; x4b; x03])))
    !! "/d/sub/x.csv" = Some [x31].
Proof.
  apply (extracted_member_holds_its_data Demo.world_archives "/d/data.zip"
           (Demo.one_file "/d/data.zip" [x50; x4b; x03]) _ [x50; x4b; x03]
           [mkMember "sub" true [] true; mkMember "sub/x.csv" false [x31] true]
           (mkMember "sub/x.csv" false [x31] true)).
  - reflexivity.
  - reflexivity.
  - vm_compute. reflexivity.
  - apply NoDup_cons. split.
    + intros H. apply list_elem_of_In in H. destruct H as [H | []]. discriminate H.
    + apply NoDup_singleton.
  - simpl. tauto.
  - reflexivity.
  - vm_compute. discriminate.
  - intros m' [<- | [<- | []]]; [discriminate|reflexivity].
Defined.

(* ===================================================================== *)
(** ** The quality search: what an accepted encoding is *)
(* ===================================================================== *)

Lemma search_levels_sound w arr target levels last b :
  search_levels w arr target levels last = Accepted b ->
  (exists hi q lo,
      levels = (hi ++ q :: lo)%list
      /\ Forall (fun q' => exists b', imencode w arr q' = EncOk b'
                                     /\ target < Z.of_nat (length b')) hi
      /\ imencode w arr q = EncOk b
      /\ (Z.of_nat (length b) <= target \/ lo = []))
  \/ (levels = [] /\ last = Some b).
Proof.
  revert last. induction levels as [|q levels IH]; intros last H.
  - right. cbn [search_levels] in H. destruct last; [|discriminate].
    injection H as ->. auto.
  - left. cbn [search_levels] in H.
    destruct (imencode w arr q) as [b0| |] eqn:Hq; try discriminate.
    destruct (Z.leb_spec (Z.of_nat (length b0)) target) as [Hfit|Hbig].
    + injection H as <-. exists [], q, levels. repeat split; auto.
    + apply IH in H as [(hi & q' & lo & -> & Hhi & Hq' & Hend) | [-> [= <-]]].
      * exists (q :: hi), q', lo. repeat split; auto. constructor; eauto.
      * exists [], q, []. repeat split; auto.
Qed.

Lemma qualities_decompose hi q lo :
  qualities = (hi ++ q :: lo)%list ->
  In q qualities
  /\ (forall q', In q' qualities -> q < q' -> In q' hi)
  /\ (lo = [] -> q = 10).
Proof.
  unfold qualities. intros H.
  do 9 (destruct hi as [|? hi];
        [ injection H as <- <-; split; [simpl; tauto|];
          split; [simpl; intros q' Hq' Hlt; intuition lia | intros; first [reflexivity|discriminate] ]
        | injection H as <- H ]).
  destruct hi; discriminate H.
Qed.

(** Whatever the search accepts was made by the encoder at one of the
    levels 90, 80, ..., 10; every higher level was encoded too and was
    over the ceiling; and the accepted encoding is itself over the
    ceiling only at level 10. *)
Theorem accepted_encoding_comes_from_a_level (w : World) (arr : list Z)
  (target : Z) (b : bytes) :
  select_encoding w arr target = Accepted b ->
  exists q,
    In q qualities
    /\ imencode w arr q = EncOk b
    /\ (forall q', In q' qualities -> q < q' ->
          exists b', imencode w arr q' = EncOk b' /\ target < Z.of_nat (length b'))
    /\ (Z.of_nat (length b) <= target \/ q = 10).
Proof.
  intros H. rewrite select_encoding_levels in H.
  apply search_levels_sound in H as [(hi & q & lo & E & Hhi & Hq & Hend) | [E _]];
    [|discriminate E].
  apply qualities_decompose in E as (Hin & Hhigher & Hlast).
  exists q. split; [exact Hin|]. split; [exact Hq|]. split.
  - intros q' Hq' Hlt. rewrite List.Forall_forall in Hhi. apply Hhi. now apply Hhigher.
  - destruct Hend as [?|Hlo]; [now left|right; now apply Hlast].
Qed.

Lemma accepted_encoding_comes_from_a_level_witness :
  exists q,
    In q qualities
    /\ imencode Demo.world [0; 62; 255] q = EncOk (Demo.enc 30)
    /\ (forall q', In q' qualities -> q < q' ->
          exists b', imencode Demo.world [0; 62; 255] q' = EncOk b'
                     /\ 3500 < Z.of_nat (length b'))
    /\ (Z.of_nat (length (Demo.enc 30)) <= 3500 \/ q = 10).
Proof.
  apply (accepted_encoding_comes_from_a_level Demo.world [0; 62; 255] 3500 (Demo.enc 30)).
  vm_compute. reflexivity.
Defined.

(* ===================================================================== *)
(** ** [download_top_level_files]: isolation of the downloads *)
(* ===================================================================== *)

Lemma extract_if_archive_total w filepath st :
  exists st', extract_if_archive w filepath st = (Ok tt, st').
Proof.
  unfold extract_if_archive.
  destruct (negb (isfile filepath st)); [eauto|].
  destruct (Py.endswith (Py.lower filepath) ".zip").
  - unfold bind, print, try_except.
    destruct (extract_zip w filepath _) as [[[]|e] st1]; eauto.
  - destruct (Py.endswith (Py.lower filepath) ".gz"); [|eauto].
    unfold bind, print, try_except.
    destruct (extract_gz w filepath _) as [[[]|e] st1]; eauto.
Qed.

Lemma handle_downloads_total w futs st :
  exists st', handle_downloads w futs st = (Ok tt, st').
Proof.
  revert st. induction futs as [|fut futs IH]; intros st; [cbn; eauto|].
  cbn [handle_downloads]. unfold bind at 1.
  destruct fut as [[dl_path dl_size]|e].
  - unfold bind at 1, print at 1.
    destruct (extract_if_archive_total w dl_path
                (emit (EvPrint (MsgDownloaded dl_path dl_size)) st)) as [st1 ->].
    apply IH.
  - unfold print at 1. apply IH.
Qed.

(** Once the top-level page has been fetched, nothing makes
    [download_top_level_files] raise: failed downloads and failed
    extractions are printed and skipped.  When the page cannot be
    fetched the exception leaves the function, with the file system as
    it was. *)
Theorem top_level_downloads_are_isolated (w : World) (top_level_url save_dir : string)
  (st : state) :
  match get_soup w top_level_url st with
  | (Ok _, _) =>
      exists st', download_top_level_files w top_level_url save_dir st = (Ok tt, st')
  | (Raise e, st1) =>
      download_top_level_files w top_level_url save_dir st = (Raise e, st1)
      /\ files st1 = files st /\ dirs st1 = dirs st
  end.
Proof.
  destruct (get_soup w top_level_url st) as [[soup|e] st1] eqn:Hsoup;
    unfold download_top_level_files; unfold bind at 1; rewrite Hsoup.
  - set (calls := map _ _).
    destruct (submit_all_inv (fun _ => True) calls st1)
      as (futs & st2 & added & E & _); [| |exact I|].
    + subst calls. apply List.Forall_forall. intros m Hm.
      apply in_map_iff in Hm as (t & <- & _). apply worker_download_file.
    + apply List.Forall_forall. auto.
    + unfold bind. rewrite E. apply handle_downloads_total.
  - apply get_soup_inv in Hsoup as [-> _]. repeat split.
Qed.

Example top_level_ends_normally :
  fst (download_top_level_files Demo.world (Demo.root ++ "p11/") "/content/Dataset"
                                Demo.empty_state) = Ok tt.
Proof. vm_compute. reflexivity. Qed.

(* ===================================================================== *)
(** ** The budget does not stop the units of the current directory *)
(* ===================================================================== *)

Lemma emits_weaken (P Q : event -> Prop) {A} (m : M A) :
  (forall e, P e -> Q e) -> emits_only P m -> emits_only Q m.
Proof.
  intros HPQ Hm st r st' H. destruct (Hm _ _ _ H) as (added & E & Hall).
  exists added. split; [exact E|]. eapply List.Forall_impl; eauto.
Qed.

Lemma emits_log_grows {A} (m : M A) st :
  emits_only (fun _ => True) m -> exists added, log (snd (m st)) = (log st ++ added)%list.
Proof.
  intros Hm. destruct (m st) as [r st'] eqn:E.
  destruct (Hm _ _ _ E) as (added & El & _). eauto.
Qed.

Lemma get_soup_ok w url st soup :
  listing w url = Some soup ->
  get_soup w url st = (Ok soup, emit (EvGet url false) st).
Proof.
  unfold listing, get_soup, bind, session_get. intros H.
  destruct (http w url) as [r|]; [|discriminate].
  destruct (stream_ok r); cbn [negb andb] in *; [|discriminate].
  unfold raise_for_status. destruct (is_error_status (status_code r)); [discriminate|].
  cbn [negb] in H. injection H as <-. reflexivity.
Qed.

Lemma bind_log_after {A B} (m : M A) (k : A -> M B) (ev : event) st :
  In ev (log (snd (m st))) ->
  (forall a, emits_only (fun _ => True) (k a)) ->
  In ev (log (snd (bind m k st))).
Proof.
  intros Hin Hk. unfold bind. destruct (m st) as [[a|e] st1]; [|exact Hin].
  destruct (emits_log_grows (k a) st1 (Hk a)) as (added & ->).
  apply in_or_app. now left.
Qed.

Lemma download_file_requested w url path st :
  In (EvGet url true) (log (snd (download_file w url path st)))
  \/ fst (download_file w url path st) = Raise OSError.
Proof.
  destruct (download_file w url path st) as [res st'] eqn:H. cbn [fst snd].
  unfold download_file in H. unfold bind at 1 in H.
  destruct (makedirs w (Py.dirname path) st) as [[[]|e] st1] eqn:Hmk.
  - left.
    match type of H with
    | bind ?m ?k st1 = _ =>
        assert (Hin : In (EvGet url true) (log (snd (bind m k st1))))
    end.
    { apply bind_log_after.
      + unfold session_get. cbn [negb andb].
        destruct (http w url) as [r|]; cbn [snd log emit]; apply in_or_app; right; now left.
      + intros r. repeat emits_step.
        apply (emits_weaken worker_event); [auto|]. apply worker_write_chunks.
        all: repeat emits_step. }
    now rewrite H in Hin.
  - right. injection H as <- <-. unfold makedirs in Hmk.
    repeat match type of Hmk with (if ?c then _ else _) = _ => destruct c end;
      first [discriminate | now injection Hmk as <- <-].
Qed.

Lemma download_and_convert_attempts w url dcm jpg st :
  attempted url (log (snd (download_and_convert w url dcm jpg st))).
Proof.
  unfold download_and_convert. unfold bind at 1, try_except at 1. unfold bind at 1.
  pose proof (download_file_requested w url dcm st) as Hreq.
  destruct (download_file w url dcm st) as [[r|e] st1] eqn:Hdl; cbn [fst snd] in Hreq.
  - destruct Hreq as [Hin|Hr]; [|discriminate]. left.
    unfold bind at 1, print at 1, ret at 1. cbn beta iota.
    match goal with
    | |- In _ (log (snd (?m ?s))) =>
        destruct (emits_log_grows m s) as (added & ->)
    end.
    + repeat emits_step.
    + cbn [log emit]. apply in_or_app. left. apply in_or_app. now left.
  - unfold bind, print, ret. cbn [snd log emit].
    destruct Hreq as [Hin|[= ->]].
    + left. apply in_or_app. now left.
    + right. apply in_or_app. right. now left.
Qed.

Lemma submit_all_contains {A} (calls : list (M A)) (Q : list event -> Prop) m st :
  (forall l l', Q l -> Q (l ++ l')%list) ->
  Forall (emits_only worker_event) calls ->
  In m calls ->
  (forall st0, Q (log (snd (m st0)))) ->
  Q (log (snd (submit_all calls st))).
Proof.
  intros HQ Hall. revert st. induction Hall as [|m0 calls Hm0 Hall IH]; intros st Hin Hm;
    [destruct Hin|].
  cbn [submit_all]. unfold bind at 1. unfold run_future.
  destruct (m0 st) as [r st1] eqn:E0.
  destruct (submit_all_inv (fun _ => True) calls st1)
    as (futs & st2 & added & E & _ & El & _); [exact Hall| |exact I|].
  { apply List.Forall_forall. auto. }
  unfold bind. rewrite E. cbn [ret snd].
  destruct Hin as [<- | Hin].
  - rewrite El. apply HQ. specialize (Hm st). now rewrite E0 in Hm.
  - specialize (IH st1 Hin Hm). now rewrite E in IH.
Qed.

(** Every unit scheduled from a listing is started, whatever the budget
    and the counter: for each [.dcm] link of the page, the download is
    requested (or its directory could not be made, which is printed).
    Reaching [max_files] stops the counting, not the work submitted for
    the current directory. *)
Theorem every_scheduled_unit_is_started (w : World) (save_dir : string)
  (max_files : Z) (current_url : string) (count : Z) (stack : list string)
  (st : state) (soup : list anchor) :
  listing w current_url = Some soup ->
  forall t, In t (dcm_tasks w current_url save_dir soup) ->
    attempted (t_url t)
      (log (snd (visit_directory w save_dir max_files current_url count stack st))).
Proof.
  intros Hl t Ht. unfold visit_directory. unfold bind at 1.
  rewrite (get_soup_ok _ _ _ _ Hl), scan_links_spec. unfold bind at 1.
  set (calls := map _ (dcm_tasks w current_url save_dir soup)).
  set (st1 := emit (EvGet current_url false) st).
  assert (Hworkers : Forall (emits_only worker_event) calls).
  { subst calls. apply List.Forall_forall. intros m Hm.
    apply in_map_iff in Hm as (t' & <- & _). apply worker_download_and_convert. }
  assert (Hmono : forall l l', attempted (t_url t) l -> attempted (t_url t) (l ++ l')%list).
  { intros l l' [H|H]; [left|right]; apply in_or_app; now left. }
  pose proof (submit_all_contains calls (attempted (t_url t))
                (download_and_convert w (t_url t) (t_dcm t) (t_jpg t)) st1
                Hmono Hworkers) as Hsub.
  destruct (submit_all_inv (fun _ => True) calls st1)
    as (futs & st2 & added & E & _); [exact Hworkers| |exact I|].
  { apply List.Forall_forall. auto. }
  rewrite E in *. cbn [snd] in Hsub. unfold bind at 1.
  destruct (collect_inv max_files (as_completed w _ futs) count st2)
    as (c & st3 & l2 & E2 & _ & _ & El2 & _).
  rewrite E2. cbn [ret snd]. rewrite El2. apply Hmono, Hsub.
  - subst calls. apply in_map_iff. exists t. auto.
  - intros st0. apply download_and_convert_attempts.
Qed.

Lemma every_scheduled_unit_is_started_witness :
  attempted (Demo.root ++ "p10/a.dcm")
    (log (snd (visit_directory Demo.world "/content/Dataset" 1 (Demo.root ++ "p10/")
                               0 [] Demo.empty_state)))
  /\ attempted (Demo.root ++ "p10/b.dcm")
       (log (snd (visit_directory Demo.world "/content/Dataset" 1 (Demo.root ++ "p10/")
                                  0 [] Demo.empty_state))).
Proof.
  split.
  - apply (every_scheduled_unit_is_started Demo.world "/content/Dataset" 1
             (Demo.root ++ "p10/") 0 [] Demo.empty_state (Demo.anchors_of [x02]) eq_refl
             (task_of "/content/Dataset" (Demo.root ++ "p10/a.dcm"))).
    vm_compute. tauto.
  - apply (every_scheduled_unit_is_started Demo.world "/content/Dataset" 1
             (Demo.root ++ "p10/") 0 [] Demo.empty_state (Demo.anchors_of [x02]) eq_refl
             (task_of "/content/Dataset" (Demo.root ++ "p10/b.dcm"))).
    vm_compute. tauto.
Defined.

(* ===================================================================== *)
(** ** The crawl: where it goes and what it prints *)
(* ===================================================================== *)

Lemma count_range_nil a b : b <= a -> count_range a b = [].
Proof.
  intros H. unfold count_range. replace (Z.to_nat (b - a)) with 0%nat by lia. reflexivity.
Qed.

Lemma count_range_cons a b : a < b -> count_range a b = a + 1 :: count_range (a + 1) b.
Proof.
  intros H. unfold count_range.
  replace (Z.to_nat (b - a)) with (S (Z.to_nat (b - (a + 1)))) by lia.
  cbn [seq map]. f_equal; try lia.
  rewrite <- seq_shift, map_map. apply map_ext. intros i. lia.
Qed.

Lemma count_range_app a c b :
  a <= c -> c <= b -> (count_range a c ++ count_range c b)%list = count_range a b.
Proof.
  intros Hac Hcb. remember (Z.to_nat (c - a)) as n eqn:En.
  revert a Hac En. induction n as [|n IH]; intros a Hac En.
  - assert (a = c) by lia. subst a. now rewrite (count_range_nil c c) by lia.
  - rewrite (count_range_cons a c), (count_range_cons a b) by lia.
    cbn [app]. f_equal. apply IH; lia.
Qed.

(** The completion loop prints the counter after each increment: the
    values printed are the integers after [count] up to the counter it
    leaves. *)
Lemma collect_counts max_files futs count st :
  exists c st' added,
    collect max_files futs count st = (Ok c, st')
    /\ log st' = (log st ++ added)%list
    /\ counter_values added = count_range count c
    /\ count <= c.
Proof.
  revert count st. induction futs as [|fut futs IH]; intros count st.
  - exists count, st, []. rewrite app_nil_r, count_range_nil by lia.
    cbn [collect ret]. repeat split; auto; lia.
  - cbn [collect]. destruct (Z.geb_spec count max_files) as [Hge|Hlt].
    { exists count, st, []. rewrite app_nil_r, count_range_nil by lia.
      repeat split; auto; lia. }
    destruct fut as [[]|e].
    + unfold bind at 1. unfold bind at 1. unfold print at 1, ret at 1.
      destruct (Z.geb_spec (count + 1) max_files) as [Hge1|Hlt1].
      * eexists _, _, [_]. split; [reflexivity|]. cbn [log emit].
        split; [reflexivity|]. split; [|lia].
        rewrite count_range_cons, count_range_nil by lia. reflexivity.
      * destruct (IH (count + 1) (emit (EvPrint (MsgProcessed (count + 1))) st))
          as (c & st' & added & E & El & Hc & Hle).
        rewrite E. exists c, st', (EvPrint (MsgProcessed (count + 1)) :: added).
        split; [reflexivity|]. rewrite El. cbn [log emit]. rewrite <- app_assoc.
        split; [reflexivity|]. split; [|lia].
        change (counter_values (EvPrint (MsgProcessed (count + 1)) :: added))
          with (count + 1 :: counter_values added).
        rewrite Hc, (count_range_cons count c) by lia. reflexivity.
    + unfold bind at 1. unfold ret at 1.
      destruct (Z.geb_spec count max_files) as [Hge1|_]; [lia|].
      destruct (IH count st) as (c & st' & added & E & El & Hc & Hle).
      rewrite E. exists c, st', added. auto.
    + unfold bind at 1. unfold print at 1.
      destruct (IH count (emit (EvPrint (MsgErrorOnDicom e)) st))
        as (c & st' & added & E & El & Hc & Hle).
      rewrite E. exists c, st', (EvPrint (MsgErrorOnDicom e) :: added).
      split; [reflexivity|]. rewrite El. cbn [log emit]. rewrite <- app_assoc.
      auto.
Qed.

(** One directory: one listing request, then the counter lines of the
    completion loop; the stack receives the subdirectory links. *)
Lemma visit_directory_trace w save_dir max_files current_url count stack st r st' :
  visit_directory w save_dir max_files current_url count stack st = (r, st') ->
  exists added,
    log st' = (log st ++ added)%list
    /\ listing_fetches added = [current_url]
    /\ match r with
       | Raise _ => counter_values added = []
       | Ok (c, stack') =>
           count <= c
           /\ counter_values added = count_range count c
           /\ exists soup,
                listing w current_url = Some soup
                /\ stack' = (rev (dir_links w current_url soup) ++ stack)%list
       end.
Proof.
  unfold visit_directory. unfold bind at 1. intros H.
  destruct (get_soup w current_url st) as [[soup|e] st1] eqn:Hsoup.
  2:{ apply get_soup_inv in Hsoup as [-> _]. injection H as <- <-.
      exists [EvGet current_url false]. cbn [log emit]. auto. }
  apply get_soup_inv in Hsoup as [-> Hl]. specialize (Hl soup eq_refl).
  rewrite scan_links_spec in H. unfold bind at 1 in H.
  set (calls := map _ (dcm_tasks w current_url save_dir soup)) in H.
  destruct (submit_all_inv (fun _ => True) calls (emit (EvGet current_url false) st))
    as (futs & st2 & l1 & E1 & _ & El1 & Hw1 & _).
  { subst calls. apply List.Forall_forall. intros m Hm.
    apply in_map_iff in Hm as (t & <- & _). apply worker_download_and_convert. }
  { apply List.Forall_forall. auto. }
  { exact I. }
  rewrite E1 in H. unfold bind at 1 in H.
  destruct (collect_counts max_files (as_completed w _ futs) count st2)
    as (c & st3 & l2 & E2 & El2 & Hc2 & Hle).
  rewrite E2 in H. injection H as <- <-.
  apply worker_events_silent in Hw1 as [Hq1 Hc1].
  assert (Hq2 : listing_fetches l2 = []).
  { destruct (collect_inv max_files (as_completed w _ futs) count st2)
      as (c' & st3' & l2' & E2' & _ & _ & El2' & Hq2' & _).
    rewrite E2 in E2'. injection E2' as <- <-. rewrite El2 in El2'.
    apply app_inv_head in El2'. now subst l2'. }
  exists (EvGet current_url false :: l1 ++ l2)%list.
  rewrite El2, El1. cbn [log emit]. rewrite <- !app_assoc. split; [reflexivity|].
  split.
  { change (listing_fetches (EvGet current_url false :: l1 ++ l2))
      with (current_url :: listing_fetches (l1 ++ l2)).
    now rewrite listing_fetches_app, Hq1, Hq2. }
  split; [exact Hle|]. split.
  { change (counter_values (EvGet current_url false :: l1 ++ l2))
      with (counter_values (l1 ++ l2)).
    now rewrite counter_values_app, Hc1, Hc2. }
  exists soup. auto.
Qed.

(** The crawl loop, started with a stack of reachable locations: the
    listings it requests are reachable, and the counter lines it prints
    are the integers after the counter it starts with, up to the one it
    ends with. *)
Lemma crawl_loop_trace w start_url save_dir max_files fuel cs st o cs' st' :
  (forall u, In u (links_to_visit cs) -> reachable w start_url u) ->
  crawl_loop w save_dir max_files fuel cs st = (o, cs', st') ->
  exists added,
    log st' = (log st ++ added)%list
    /\ (forall u, In u (listing_fetches added) -> reachable w start_url u)
    /\ dcm_count cs <= dcm_count cs'
    /\ counter_values added = count_range (dcm_count cs) (dcm_count cs').
Proof.
  assert (Hnone : forall (cs : crawl_state) (st : state), exists added,
            log st = (log st ++ added)%list
            /\ (forall u, In u (listing_fetches added) -> reachable w start_url u)
            /\ dcm_count cs <= dcm_count cs
            /\ counter_values added = count_range (dcm_count cs) (dcm_count cs)).
  { intros cs0 st0. exists []. rewrite app_nil_r, count_range_nil by lia.
    split; [reflexivity|]. split; [intros u []|]. split; [lia|reflexivity]. }
  revert cs st. induction fuel as [|fuel IH]; intros cs st Hstack H.
  - cbn [crawl_loop] in H.
    assert (cs' = cs /\ st' = st) as [-> ->].
    { destruct (links_to_visit cs); [split; congruence|].
      destruct (negb _); split; congruence. }
    apply Hnone.
  - cbn [crawl_loop] in H.
    destruct (links_to_visit cs) as [|current_url rest] eqn:Hs.
    { injection H as <- <- <-. apply Hnone. }
    destruct (Z.ltb_spec (dcm_count cs) max_files) as [Hlt|Hge]; cbn [negb] in H.
    2:{ injection H as <- <- <-. apply Hnone. }
    assert (Hcur : reachable w start_url current_url) by (apply Hstack; now left).
    assert (Hrest : forall u, In u rest -> reachable w start_url u)
      by (intros u Hu; apply Hstack; now right).
    destruct (bool_decide (current_url ∈ visited cs)).
    { apply IH in H; [|exact Hrest]. exact H. }
    destruct (visit_directory w save_dir max_files current_url (dcm_count cs) rest st)
      as [[[c stack']|e] st1] eqn:Hvd.
    2:{ apply visit_directory_trace in Hvd as (added & El & Hq & Hc).
        injection H as <- <- <-. exists added. split; [exact El|].
        rewrite Hq, Hc, count_range_nil by (cbn; lia). cbn [dcm_count].
        split; [intros u [<- | []]; exact Hcur|]. split; [lia|reflexivity]. }
    apply visit_directory_trace in Hvd
      as (added & El & Hq & Hle & Hc & soup & Hl & ->).
    assert (Hstack' : forall u, In u (rev (dir_links w current_url soup) ++ rest)%list ->
                                reachable w start_url u).
    { intros u Hu. apply in_app_or in Hu as [Hu|Hu]; [|now apply Hrest].
      apply in_rev in Hu. eapply reach_link; eauto. }
    destruct (c >=? max_files).
    { injection H as <- <- <-. exists added. split; [exact El|].
      rewrite Hq, Hc. cbn [dcm_count].
      split; [intros u [<- | []]; exact Hcur|]. split; [lia|reflexivity]. }
    apply IH in H as (added2 & El2 & Hr2 & Hle2 & Hc2); [|exact Hstack'].
    cbn [dcm_count] in *.
    exists (added ++ added2)%list. rewrite El2, El, <- app_assoc.
    split; [reflexivity|].
    rewrite listing_fetches_app, counter_values_app, Hq, Hc, Hc2.
    split; [|split; [lia|apply count_range_app; lia]].
    intros u [<- | Hu]; [exact Hcur|now apply Hr2].
Qed.

(** The crawl stays inside the tree under its start: every listing it
    requests is the start, or the target of a subdirectory link of a
    directory whose listing it could be given; whatever the site, the
    budget, the number of iterations and the way the run ends. *)
Theorem crawl_stays_in_the_tree (w : World) (start_url save_dir : string)
  (max_files : Z) (fuel : nat) (st : state) :
  let '(o, cs, st') := crawl_and_convert_dicom w start_url save_dir max_files fuel st in
  exists added,
    log st' = (log st ++ added)%list
    /\ forall u, In u (listing_fetches added) -> reachable w start_url u.
Proof.
  destruct (crawl_and_convert_dicom w start_url save_dir max_files fuel st)
    as [[o cs] st'] eqn:H.
  unfold crawl_and_convert_dicom in H.
  apply (crawl_loop_trace w start_url) in H as (added & El & Hr & _).
  - exists added. auto.
  - cbn [links_to_visit]. intros u [<- | []]. constructor.
Qed.

(** The progress lines of a crawl count without gap or repeat: the
    numbers printed by ["Processed n DICOMs so far."] are, in order,
    1, 2, ... up to the final value of [dcm_count]; whatever the order
    in which the pool hands back the futures, and however the run
    ends. *)
Theorem progress_lines_count_up (w : World) (start_url save_dir : string)
  (max_files : Z) (fuel : nat) (st : state) :
  let '(o, cs, st') := crawl_and_convert_dicom w start_url save_dir max_files fuel st in
  exists added,
    log st' = (log st ++ added)%list
    /\ 0 <= dcm_count cs
    /\ counter_values added = count_range 0 (dcm_count cs).
Proof.
  destruct (crawl_and_convert_dicom w start_url save_dir max_files fuel st)
    as [[o cs] st'] eqn:H.
  unfold crawl_and_convert_dicom in H.
  apply (crawl_loop_trace w start_url) in H as (added & El & _ & Hle & Hc).
  - exists added. cbn [dcm_count] in *. auto.
  - cbn [links_to_visit]. intros u [<- | []]. constructor.
Qed.

Example progress_lines_demo :
  let '(o, cs, st') :=
    crawl_and_convert_dicom Demo.world Demo.root "/content/Dataset" 5 10 Demo.empty_state in
  counter_values (log st') = [1; 2] /\ count_range 0 (dcm_count cs) = [1; 2].
Proof. vm_compute. split; reflexivity. Qed.

(* ===================================================================== *)
(** ** The whole script: when it ends with "All done" *)
(* ===================================================================== *)

Lemma download_top_level_files_ok w top_level_url save_dir soup st :
  listing w top_level_url = Some soup ->
  exists st', download_top_level_files w top_level_url save_dir st = (Ok tt, st').
Proof.
  intros Hl. unfold download_top_level_files. unfold bind at 1.
  rewrite (get_soup_ok w top_level_url st soup Hl).
  set (calls := map _ _).
  destruct (submit_all_inv (fun _ => True) calls (emit (EvGet top_level_url false) st))
    as (futs & st2 & added & E & _); [| |exact I|].
  - subst calls. apply List.Forall_forall. intros m Hm.
    apply in_map_iff in Hm as (t & <- & _). apply worker_download_file.
  - apply List.Forall_forall. auto.
  - unfold bind. rewrite E. apply handle_downloads_total.
Qed.

Lemma visit_directory_ok w save_dir max_files current_url count stack st soup :
  listing w current_url = Some soup ->
  exists c st',
    visit_directory w save_dir max_files current_url count stack st
    = (Ok (c, (rev (dir_links w current_url soup) ++ stack)%list), st').
Proof.
  intros Hl. unfold visit_directory. unfold bind at 1.
  rewrite (get_soup_ok w current_url st soup Hl), scan_links_spec.
  unfold bind at 1.
  set (calls := map _ (dcm_tasks w current_url save_dir soup)).
  destruct (submit_all_inv (fun _ => True) calls (emit (EvGet current_url false) st))
    as (futs & st2 & l1 & E1 & _); [| |exact I|].
  - subst calls. apply List.Forall_forall. intros m Hm.
    apply in_map_iff in Hm as (t & <- & _). apply worker_download_and_convert.
  - apply List.Forall_forall. auto.
  - rewrite E1. unfold bind at 1.
    destruct (collect_inv max_files (as_completed w _ futs) count st2)
      as (c & st3 & l2 & E2 & _).
    rewrite E2. eauto.
Qed.

(** On a site whose directories all serve their listing, no exception
    leaves the crawl loop. *)
Lemma crawl_loop_no_abort w save_dir max_files site fuel :
  closed_site w site ->
  (forall d, In d site -> listing w d <> None) ->
  forall cs st,
    (forall u, In u (links_to_visit cs) -> In u site) ->
    forall e, fst (fst (crawl_loop w save_dir max_files fuel cs st)) <> Aborted e.
Proof.
  intros Hclosed Hserved. induction fuel as [|fuel IH]; intros cs st Hsub e.
  - cbn [crawl_loop]. destruct (links_to_visit cs); [discriminate|].
    destruct (negb _); discriminate.
  - cbn [crawl_loop]. destruct cs as [count stack seen].
    cbn [links_to_visit dcm_count visited] in *.
    destruct stack as [|current_url rest]; [discriminate|].
    destruct (negb (count <? max_files)); [discriminate|].
    destruct (bool_decide (current_url ∈ seen)).
    { apply IH. cbn [links_to_visit]. intros u Hu. apply Hsub. now right. }
    assert (Hcur : In current_url site) by (apply Hsub; now left).
    destruct (listing w current_url) as [soup|] eqn:Hl; [|now apply Hserved in Hcur].
    destruct (visit_directory_ok w save_dir max_files current_url count rest st soup Hl)
      as (c & st1 & ->).
    destruct (c >=? max_files); [discriminate|].
    apply IH. cbn [links_to_visit]. intros u Hu.
    apply in_app_or in Hu as [Hu | Hu].
    + apply in_rev in Hu. eapply Hclosed; eauto.
    + apply Hsub. now right.
Qed.

(** The script ends with ["All done"] whatever happens to the files:
    when the login check answers 200, the top-level page is served and
    the image tree is a finite site whose directories all serve their
    listing, no failed download, unreadable image, refused write or
    broken archive keeps the run from finishing, and ["All done"] is
    the last thing printed. *)
Theorem script_finishes_when_pages_are_served (w : World) (SAVE_DIR : string)
  (MAX_FILES : Z) (fuel : nat) (st : state) (site : list string) (r : response) :
  http w BASE_DICOM_URL = Some r ->
  status_code r = 200 ->
  listing w TOP_LEVEL_URL <> None ->
  closed_site w site ->
  In BASE_DICOM_URL site ->
  (forall d, In d site -> listing w d <> None) ->
  (S (pending w site ∅) <= fuel)%nat ->
  exists st',
    main w SAVE_DIR MAX_FILES fuel st = (Finished, emit (EvPrint MsgAllDone) st').
Proof.
  intros Hhttp Hcode Htop Hclosed Hstart Hserved Hfuel.
  assert (Hok : stream_ok r = true).
  { specialize (Hserved _ Hstart). unfold listing in Hserved. rewrite Hhttp in Hserved.
    destruct (stream_ok r); [reflexivity|]. now cbn [andb] in Hserved. }
  unfold main, session_get. rewrite Hhttp, Hok. cbn [negb andb].
  rewrite Hcode. cbn [Z.eqb Pos.eqb].
  destruct (listing w TOP_LEVEL_URL) as [soup|] eqn:Hl; [|contradiction].
  unfold bind at 1, print at 1.
  destruct (download_top_level_files_ok w TOP_LEVEL_URL SAVE_DIR soup
              (emit (EvPrint MsgLoginOk) (emit (EvGet BASE_DICOM_URL false) st)) Hl)
    as [st2 ->].
  unfold crawl_and_convert_dicom.
  pose proof (crawl_loop_ends w SAVE_DIR MAX_FILES site fuel Hclosed
                (mkCrawl 0 [BASE_DICOM_URL] ∅) st2) as Hends.
  pose proof (crawl_loop_no_abort w SAVE_DIR MAX_FILES site fuel Hclosed Hserved
                (mkCrawl 0 [BASE_DICOM_URL] ∅) st2) as Hno.
  cbn [links_to_visit visited length] in Hends, Hno.
  assert (Hsub : forall u, In u [BASE_DICOM_URL] -> In u site)
    by (intros u [<- | []]; exact Hstart).
  specialize (Hends Hsub ltac:(cbn; lia)). specialize (Hno Hsub).
  destruct (crawl_loop w SAVE_DIR MAX_FILES fuel (mkCrawl 0 [BASE_DICOM_URL] ∅) st2)
    as [[[ | e | ] cs] st3]; cbn [fst] in *.
  - eauto.
  - now destruct (Hno e).
  - now destruct Hends.
Qed.

Lemma demo_top_listings d :
  In d DemoSite.site ->
  listing DemoTop.world d <> None
  /\ forall soup u, listing DemoTop.world d = Some soup ->
       In u (dir_links DemoTop.world d soup) -> In u DemoSite.site.
Proof.
  intros Hd. simpl in Hd.
  destruct Hd as [<- | [<- | [<- | []]]]; (split; [vm_compute; discriminate|]);
    intros soup u Hl Hu; vm_compute in Hl; injection Hl as <-;
    vm_compute in Hu; vm_compute; tauto.
Qed.

Lemma script_finishes_when_pages_are_served_witness :
  exists st',
    main DemoTop.world "/content/Dataset" 5 10 Demo.empty_state
    = (Finished, emit (EvPrint MsgAllDone) st').
Proof.
  apply (script_finishes_when_pages_are_served DemoTop.world "/content/Dataset" 5 10
           Demo.empty_state DemoSite.site (Demo.listing x01)).
  - reflexivity.
  - reflexivity.
  - vm_compute. discriminate.
  - intros d soup u Hd. now apply (proj2 (demo_top_listings d Hd)).
  - now left.
  - intros d Hd. now apply (proj1 (demo_top_listings d Hd)).
  - vm_compute. lia.
Defined.

Example script_demo_run :
  let '(e, st') := main DemoTop.world "/content/Dataset" 5 10 Demo.empty_state in
  e = Finished
  /\ listing_fetches (log st')
     = [BASE_DICOM_URL; TOP_LEVEL_URL; Demo.root; (Demo.root ++ "p11/")%string;
        (Demo.root ++ "p10/")%string]
  /\ counter_values (log st') = [1; 2].
Proof. vm_compute. repeat split; reflexivity. Qed.

(* ===================================================================== *)
(** ** [download_top_level_files]: where the files go *)
(* ===================================================================== *)

(** Every download scheduled from the top-level page comes from an
    anchor with a non-empty href, and goes to the base name of the
    URL's path, directly inside [save_dir]: the name ends in [.zip],
    [.txt] or [.gz] (in any case), holds no slash, and the local path is
    [save_dir], a separator when [save_dir] has none, and that name.
    The directories of the URL are not kept. *)
Theorem top_level_files_land_in_save_dir (w : World) (top_level_url save_dir : string)
  (download_anchors : list anchor) (file_url local_path : string) :
  In (file_url, local_path) (top_level_tasks w top_level_url save_dir download_anchors) ->
  exists a href name sep,
    In a download_anchors
    /\ a_href a = Some href /\ href <> EmptyString
    /\ file_url = urljoin w top_level_url href
    /\ name = Py.basename (urlparse_path w file_url)
    /\ existsb (Py.endswith (Py.lower name)) exts = true
    /\ existsb (Ascii.eqb "/") (list_ascii_of_string name) = false
    /\ (sep = EmptyString \/ sep = "/")
    /\ local_path = (save_dir ++ sep ++ name)%string.
Proof.
  induction download_anchors as [|a rest IH]; intros Hin; [destruct Hin|].
  assert (Hrest : In (file_url, local_path) (top_level_tasks w top_level_url save_dir rest) ->
                  exists a0 href name sep,
                    In a0 (a :: rest)
                    /\ a_href a0 = Some href /\ href <> EmptyString
                    /\ file_url = urljoin w top_level_url href
                    /\ name = Py.basename (urlparse_path w file_url)
                    /\ existsb (Py.endswith (Py.lower name)) exts = true
                    /\ existsb (Ascii.eqb "/") (list_ascii_of_string name) = false
                    /\ (sep = EmptyString \/ sep = "/")
                    /\ local_path = (save_dir ++ sep ++ name)%string).
  { intros H. destruct (IH H) as (a0 & href & name & sep & Ha0 & Hrest).
    exists a0, href, name, sep. split; [now right|exact Hrest]. }
  cbn [top_level_tasks] in Hin.
  destruct (a_href a) as [href|] eqn:Hh; cbn [default from_option] in Hin; unfold id in Hin;
    [|exact (Hrest Hin)].
  destruct (String.eqb_spec href EmptyString) as [->|Hne]; [exact (Hrest Hin)|].
  destruct (existsb (Py.endswith (Py.lower
              (Py.basename (urlparse_path w (urljoin w top_level_url href))))) exts) eqn:Hext;
    cbn [negb] in Hin; [|exact (Hrest Hin)].
  destruct Hin as [[= <- <-] | Hin]; [|exact (Hrest Hin)].
  pose proof (basename_no_slash (urlparse_path w (urljoin w top_level_url href))) as Hns.
  pose proof (no_slash_not_absolute _ Hns) as Hrel.
  unfold Py.join. rewrite Hrel.
  destruct (String.eqb save_dir EmptyString || Py.endswith save_dir "/").
  - exists a, href, (Py.basename (urlparse_path w (urljoin w top_level_url href))), EmptyString.
    rewrite append_nil_l. repeat split; auto. now left.
  - exists a, href, (Py.basename (urlparse_path w (urljoin w top_level_url href))), "/".
    repeat split; auto. now left.
Qed.

Lemma top_level_files_land_in_save_dir_witness :
  exists a href name sep,
    In a [mkAnchor (Some "a/b/LICENSE.TXT") ["download"]; mkAnchor (Some "index.html") ["download"]]
    /\ a_href a = Some href /\ href <> EmptyString
    /\ (TOP_LEVEL_URL ++ "a/b/LICENSE.TXT")%string = urljoin DemoTop.world TOP_LEVEL_URL href
    /\ name = Py.basename (urlparse_path DemoTop.world (TOP_LEVEL_URL ++ "a/b/LICENSE.TXT"))
    /\ existsb (Py.endswith (Py.lower name)) exts = true
    /\ existsb (Ascii.eqb "/") (list_ascii_of_string name) = false
    /\ (sep = EmptyString \/ sep = "/")
    /\ "/content/Dataset/LICENSE.TXT" = ("/content/Dataset" ++ sep ++ name)%string.
Proof.
  apply (top_level_files_land_in_save_dir DemoTop.world TOP_LEVEL_URL "/content/Dataset"
           [mkAnchor (Some "a/b/LICENSE.TXT") ["download"];
            mkAnchor (Some "index.html") ["download"]]
           (TOP_LEVEL_URL ++ "a/b/LICENSE.TXT") "/content/Dataset/LICENSE.TXT").
  vm_compute. now left.
Defined.
